(** * canopy-parser: the C boundary around UDPipe (udpipe_wrapper.cpp)

    A shallow embedding of [crates/canopy-parser/udpipe_wrapper.cpp] and of
    the two structs of [udpipe_wrapper.h].  The wrapper is C-style code over
    [malloc]/[free], so the embedding threads an explicit heap: a finite map
    from addresses to blocks together with the outcomes the allocator will
    give to the next requests.  Undefined behaviour (a read through a null
    or dangling pointer, a double [free], an indeterminate value read) is
    the [None] of the option monad.  The functions are embedded twice:
    first as the calls in which the [std::string] temporaries the wrapper
    builds are constructed, then, in [Module Cxx], with the exception a
    refused temporary throws. *)

From Stdlib Require Import ZArith Ascii String.
From stdpp Require Import gmap strings list fin_maps.

Local Open Scope string_scope.
Local Open Scope Z_scope.
Local Open Scope list_scope.

(** ** C strings *)

Definition NUL : ascii := Ascii.zero.

(** [std::string(const char* p)]: the characters stored at [p] up to, and
    without, the first NUL.  A [const char*] argument is given as the
    characters stored from the pointer on; its terminator is implicit at
    the end when no NUL occurs earlier. *)
Fixpoint from_c_str (p : string) : string :=
  match p with
  | EmptyString => EmptyString
  | String c r => if decide (c = NUL) then EmptyString else String c (from_c_str r)
  end.

(** [str.c_str()]: the characters of [str] followed by a NUL. *)
Fixpoint c_str (str : string) : list ascii :=
  match str with
  | EmptyString => [NUL]
  | String c r => c :: c_str r
  end.

(** A [char] buffer: a cell is [None] while its value is indeterminate. *)
Definition chars := list (option ascii).

(** What [strcpy] transfers from [src]: everything through the first NUL. *)
Fixpoint strcpy_bytes (src : list ascii) : list ascii :=
  match src with
  | [] => []
  | c :: r => if decide (c = NUL) then [c] else c :: strcpy_bytes r
  end.

(** [strcpy(dst, src)]; writing past the end of [dst] is undefined. *)
Definition strcpy (dst : chars) (src : list ascii) : option chars :=
  let bytes := strcpy_bytes src in
  if decide (length bytes ≤ length dst)%nat
  then Some ((Some <$> bytes) ++ drop (length bytes) dst)
  else None.

(** Reading a buffer as a C string, as a caller of the boundary does. *)
Fixpoint read_c_str (b : chars) : option string :=
  match b with
  | [] => None
  | None :: _ => None
  | Some c :: r => if decide (c = NUL) then Some EmptyString
                   else String c <$> read_c_str r
  end.

(** ** Pointers and the structs of udpipe_wrapper.h *)

Definition addr := positive.

Inductive ptr := nullptr | Ptr (a : addr).

#[global] Instance ptr_eq_dec : EqDecision ptr.
Proof. solve_decision. Defined.

(** [typedef struct { int id; char* form; ... } UDPipeWord;] *)
Record UDPipeWord := {
  id : Z;
  form : ptr;
  lemma : ptr;
  upostag : ptr;
  xpostag : ptr;
  feats : ptr;
  head : Z;
  deprel : ptr;
  deps : ptr;
  misc : ptr
}.

(** [typedef struct { UDPipeWord* words; size_t word_count; char* text; }
    UDPipeSentence;]  The wrapper assigns, compares and counts up
    [word_count] and does no other arithmetic on it: [nat], which indexes
    the arrays, stands for [size_t]; the two [int] fields of a word are
    copied and nothing else. *)
Record UDPipeSentence := {
  words : ptr;
  word_count : nat;
  text : ptr
}.

(** ** The heap *)

Inductive block :=
| BChars (buf : chars)                       (* char[]                    *)
| BWords (cells : list (option UDPipeWord))  (* UDPipeWord[], or one word *)
| BSentence (r : UDPipeSentence)             (* UDPipeSentence            *)
| BCharPtr (p : ptr).                        (* a char* variable          *)

(** [oracle] lists the outcomes of the coming [malloc] requests, [false]
    for a request that fails; once it is exhausted every request
    succeeds. *)
Record heap := {
  mem : gmap addr block;
  oracle : list bool
}.

Definition malloc (init : block) (h : heap) : ptr * heap :=
  match oracle h with
  | false :: o => (nullptr, {| mem := mem h; oracle := o |})
  | true :: o =>
      let a := fresh (dom (mem h)) in
      (Ptr a, {| mem := <[a := init]> (mem h); oracle := o |})
  | [] =>
      let a := fresh (dom (mem h)) in
      (Ptr a, {| mem := <[a := init]> (mem h); oracle := [] |})
  end.

(** [free(p)]: nothing for a null pointer; undefined for an address that
    holds no live block. *)
Definition free (p : ptr) (h : heap) : option heap :=
  match p with
  | nullptr => Some h
  | Ptr a =>
      match mem h !! a with
      | Some _ => Some {| mem := delete a (mem h); oracle := oracle h |}
      | None => None
      end
  end.

Definition store (a : addr) (b : block) (h : heap) : heap :=
  {| mem := <[a := b]> (mem h); oracle := oracle h |}.

(** ** The UDPipe library, as far as the wrapper calls it

    [udpipe.h] is third-party code outside the wrapper: its classes are
    taken as data.  A [model] gives, for each call the wrapper makes, what
    the call does: it returns or it throws. *)
Module udpipe.

(** The members of [ufal::udpipe::word] that the wrapper reads. *)
Record word := {
  id : Z;
  form : string;
  lemma : string;
  upostag : string;
  xpostag : string;
  feats : string;
  head : Z;
  deprel : string;
  deps : string;
  misc : string
}.

Record sentence := { words : list word }.

Inductive exception :=
| std_exception (what : string)   (* const std::exception& e, with e.what() *)
| other_exception.                (* anything else that can be thrown      *)

Inductive outcome (A : Type) :=
| returns (a : A)
| throws (e : exception).
Arguments returns {A} a.
Arguments throws {A} e.

(** The two option strings the wrapper passes. *)
Inductive options := TOKENIZER_NORMALIZED_SPACES | DEFAULT.

(** [set_text(text)] followed by [next_sentence(s, error)] on a fresh
    tokenizer: the flag returned and what is left in [s] and [error]. *)
Record input_format := {
  next_sentence : string → outcome (bool * sentence * string)
}.

(** [tag] and [parse] take the sentence and the current [error] and leave
    their new values; [new_tokenizer] may return a null pointer. *)
Record model := {
  new_tokenizer : options → outcome (option input_format);
  tag : sentence → options → string → outcome (bool * sentence * string);
  parse : sentence → options → string → outcome (bool * sentence * string)
}.

End udpipe.

(** ** udpipe_wrapper.cpp *)

(** [char* duplicate_string(const std::string& str)] *)
Definition duplicate_string (str : string) (h : heap) : option (ptr * heap) :=
  if decide (str = EmptyString) then Some (nullptr, h)
  else
    let '(result, h) := malloc (BChars (replicate (String.length str + 1) None)) h in
    match result with
    | Ptr a =>
        buf ← strcpy (replicate (String.length str + 1) None) (c_str str);
        Some (result, store a (BChars buf) h)
    | nullptr => Some (result, h)
    end.

(** [UDPipeSentence* udpipe_sentence_create()].  The three stores that
    follow the [malloc] are folded into the contents the block is given:
    nothing reads the record between the allocation and the last store. *)
Definition udpipe_sentence_create (h : heap) : ptr * heap :=
  malloc (BSentence {| words := nullptr; word_count := 0; text := nullptr |}) h.

Definition load_sentence (a : addr) (h : heap) : option UDPipeSentence :=
  match mem h !! a with
  | Some (BSentence r) => Some r
  | _ => None
  end.

Definition load_cell (p : ptr) (i : nat) (h : heap) : option UDPipeWord :=
  match p with
  | nullptr => None
  | Ptr a =>
      match mem h !! a with
      | Some (BWords cells) => mjoin (cells !! i)
      | _ => None
      end
  end.

(** [for (size_t i = start; i < start + n; i++) body].  The bound the
    loops of the wrapper read again at every turn, [word_count], is not
    written to while they run. *)
Fixpoint for_loop {St : Type} (start n : nat) (body : nat → St → option St)
    (s : St) : option St :=
  match n with
  | O => Some s
  | S n' => s' ← body start s; for_loop (S start) n' body s'
  end.

(** The body of the loop of [udpipe_sentence_destroy]. *)
Definition destroy_word (sentence : UDPipeSentence) (i : nat) (h : heap)
  : option heap :=
  word ← load_cell (words sentence) i h;
  h ← free (form word) h;
  h ← free (lemma word) h;
  h ← free (upostag word) h;
  h ← free (xpostag word) h;
  h ← free (feats word) h;
  h ← free (deprel word) h;
  h ← free (deps word) h;
  free (misc word) h.

(** [void udpipe_sentence_destroy(UDPipeSentence* sentence)] *)
Definition udpipe_sentence_destroy (sentence : ptr) (h : heap) : option heap :=
  match sentence with
  | nullptr => Some h
  | Ptr a =>
      r ← load_sentence a h;
      h ← for_loop 0 (word_count r) (destroy_word r) h;
      h ← free (words r) h;
      h ← free (text r) h;
      free sentence h
  end.

(** The statement every failing path of [udpipe_process_text] runs before
    [return 0]: [if (error_msg) { *error_msg = duplicate_string(msg); }],
    where [msg] is a [const char*] that is converted to [std::string].
    This is the statement when that [std::string] temporary is built;
    [Cxx.set_error] below has the construction and its exception. *)
Definition set_error (error_msg : ptr) (msg : string) (h : heap) : option heap :=
  match error_msg with
  | nullptr => Some h
  | Ptr e =>
      '(p, h) ← duplicate_string (from_c_str msg) h;
      match mem h !! e with
      | Some (BCharPtr _) => Some (store e (BCharPtr p) h)
      | _ => None
      end
  end.

Definition fail_with (error_msg : ptr) (msg : string) (h : heap) : option (Z * heap) :=
  h ← set_error error_msg msg h; Some (0, h).

(** The two handlers that close the [try] block, reached here from the
    calls into the library.  The [std::string] temporaries the wrapper
    builds from [const char*] are taken as built in these definitions;
    their exceptions, inside the block and inside the handlers, are in
    [Cxx.handler] and [Cxx.udpipe_process_text] below. *)
Definition handler (error_msg : ptr) (e : udpipe.exception) (h : heap)
  : option (Z * heap) :=
  match e with
  | udpipe.std_exception what => fail_with error_msg what h
  | udpipe.other_exception => fail_with error_msg "Unknown error occurred" h
  end.

(** [error.empty() ? dflt : error.c_str()] *)
Definition error_or (error dflt : string) : string :=
  if decide (error = EmptyString) then dflt else error.

(** [dest = &p[i]] followed by the stores to the fields of [*dest].  The
    ten stores of the source are made at once: between the first and the
    last nothing reads the cell. *)
Definition store_cell (p : ptr) (i : nat) (w : UDPipeWord) (h : heap) : option heap :=
  match p with
  | nullptr => None
  | Ptr a =>
      match mem h !! a with
      | Some (BWords cells) =>
          if decide (i < length cells)%nat
          then Some (store a (BWords (<[i := Some w]> cells)) h)
          else None
      | _ => None
      end
  end.

(** The body of the loop of [udpipe_process_text] (lines 122-134). *)
Definition extract_word (s : udpipe.sentence) (dest_array : ptr) (i : nat) (h : heap)
  : option heap :=
  w ← udpipe.words s !! i;
  '(form', h) ← duplicate_string (udpipe.form w) h;
  '(lemma', h) ← duplicate_string (udpipe.lemma w) h;
  '(upostag', h) ← duplicate_string (udpipe.upostag w) h;
  '(xpostag', h) ← duplicate_string (udpipe.xpostag w) h;
  '(feats', h) ← duplicate_string (udpipe.feats w) h;
  '(deprel', h) ← duplicate_string (udpipe.deprel w) h;
  '(deps', h) ← duplicate_string (udpipe.deps w) h;
  '(misc', h) ← duplicate_string (udpipe.misc w) h;
  store_cell dest_array i
    {| id := udpipe.id w; form := form'; lemma := lemma'; upostag := upostag';
       xpostag := xpostag'; feats := feats'; head := udpipe.head w;
       deprel := deprel'; deps := deps'; misc := misc' |} h.

(** [result->f = v]: a store to one member of the record at [res]. *)
Definition assign (res : addr) (f : UDPipeSentence → UDPipeSentence) (h : heap)
  : option heap :=
  r ← load_sentence res h; Some (store res (BSentence (f r)) h).

Definition set_words (p : ptr) (r : UDPipeSentence) : UDPipeSentence :=
  {| words := p; word_count := word_count r; text := text r |}.
Definition set_word_count (n : nat) (r : UDPipeSentence) : UDPipeSentence :=
  {| words := words r; word_count := n; text := text r |}.
Definition set_text (p : ptr) (r : UDPipeSentence) : UDPipeSentence :=
  {| words := words r; word_count := word_count r; text := p |}.

(** [// Extract results] to [return 1] (lines 110-140); [res] is the
    address [result] holds.  [inl] is the [return 0] inside the [if].  The
    request is for [n] cells: a product [sizeof(UDPipeWord) * n] that
    wraps around needs more words than an address space holds.  The
    temporaries of lines 116 and 138 are built; [Cxx.extract_results]
    below has the paths on which their construction throws. *)
Definition extract_results (s : udpipe.sentence) (text : string)
    (res : addr) (error_msg : ptr) (h : heap) : option (Z * heap) :=
  let n := length (udpipe.words s) in
  h ← assign res (set_word_count n) h;
  h ← (if decide (0 < n)%nat then
         let '(array, h) := malloc (BWords (replicate n None)) h in
         h ← assign res (set_words array) h;
         match array with
         | nullptr => h ← set_error error_msg "Memory allocation failed" h; Some (inl h)
         | Ptr _ => h ← for_loop 0 n (extract_word s array) h; Some (inr h)
         end
       else Some (inr h));
  match h with
  | inl h => Some (0, h)
  | inr h =>
      '(copy, h) ← duplicate_string (from_c_str text) h;
      h ← assign res (set_text copy) h;
      Some (1, h)
  end.

(** [int udpipe_process_text(void* model_ptr, const char* text,
    UDPipeSentence* result, char** error_msg)] *)
Definition udpipe_process_text (model_ptr : option udpipe.model)
    (text : option string) (result error_msg : ptr) (h : heap)
  : option (Z * heap) :=
  match model_ptr, text, result with
  | Some udpipe_model, Some text, Ptr res =>
      match udpipe.new_tokenizer udpipe_model udpipe.TOKENIZER_NORMALIZED_SPACES with
      | udpipe.throws e => handler error_msg e h
      | udpipe.returns None => fail_with error_msg "Failed to create tokenizer" h
      | udpipe.returns (Some tokenizer) =>
      match udpipe.next_sentence tokenizer (from_c_str text) with
      | udpipe.throws e => handler error_msg e h
      | udpipe.returns (false, _, error) =>
          fail_with error_msg (error_or error "No sentence found") h
      | udpipe.returns (true, s, error) =>
      match udpipe.tag udpipe_model s udpipe.DEFAULT error with
      | udpipe.throws e => handler error_msg e h
      | udpipe.returns (false, _, error) =>
          fail_with error_msg (error_or error "POS tagging failed") h
      | udpipe.returns (true, s, error) =>
      match udpipe.parse udpipe_model s udpipe.DEFAULT error with
      | udpipe.throws e => handler error_msg e h
      | udpipe.returns (false, _, error) =>
          fail_with error_msg (error_or error "Dependency parsing failed") h
      | udpipe.returns (true, s, error) =>
          extract_results s text res error_msg h
      end end end end
  | _, _, _ => fail_with error_msg "Invalid parameters" h
  end.

(** [size_t udpipe_sentence_get_word_count(void* sentence_ptr)] *)
Definition udpipe_sentence_get_word_count (sentence_ptr : option udpipe.sentence)
  : nat :=
  match sentence_ptr with
  | None => 0%nat
  | Some s => length (udpipe.words s)
  end.

(** [int udpipe_sentence_get_word(void* sentence_ptr, size_t index,
    UDPipeWord* word)] *)
Definition udpipe_sentence_get_word (sentence_ptr : option udpipe.sentence)
    (index : nat) (word : ptr) (h : heap) : option (Z * heap) :=
  match sentence_ptr, word with
  | Some s, Ptr _ =>
      if decide (length (udpipe.words s) ≤ index)%nat then Some (0, h)
      else
        w ← udpipe.words s !! index;
        '(form', h) ← duplicate_string (udpipe.form w) h;
        '(lemma', h) ← duplicate_string (udpipe.lemma w) h;
        '(upostag', h) ← duplicate_string (udpipe.upostag w) h;
        '(xpostag', h) ← duplicate_string (udpipe.xpostag w) h;
        '(feats', h) ← duplicate_string (udpipe.feats w) h;
        '(deprel', h) ← duplicate_string (udpipe.deprel w) h;
        '(deps', h) ← duplicate_string (udpipe.deps w) h;
        '(misc', h) ← duplicate_string (udpipe.misc w) h;
        h ← store_cell word 0
              {| id := udpipe.id w; form := form'; lemma := lemma';
                 upostag := upostag'; xpostag := xpostag'; feats := feats';
                 head := udpipe.head w; deprel := deprel'; deps := deps';
                 misc := misc' |} h;
        Some (1, h)
  | _, _ => Some (0, h)
  end.

(** [void udpipe_free_string(char* str)] *)
Definition udpipe_free_string (str : ptr) (h : heap) : option heap := free str h.

(** * Vocabulary of the statements *)

(** ** The allocator *)

(** The next request is one the allocator grants. *)
Definition malloc_succeeds (h : heap) : Prop :=
  match oracle h with
  | false :: _ => False
  | _ => True
  end.

#[global] Instance malloc_succeeds_dec h : Decision (malloc_succeeds h).
Proof. unfold malloc_succeeds. destruct (oracle h) as [|[] ?]; apply _. Defined.

(** Every coming request is granted. *)
Definition all_granted (h : heap) : Prop := Forall (λ b, b = true) (oracle h).

(** The allocator outcomes for [n] granted requests followed by a refusal. *)
Definition refuse_after (n : nat) : list bool := replicate n true ++ [false].

Definition empty_heap : heap := {| mem := ∅; oracle := [] |}.

(** ** Pointers a caller may pass *)

(** [error_msg] is null or the address of a [char*] variable. *)
Definition valid_error_msg (error_msg : ptr) (h : heap) : Prop :=
  match error_msg with
  | nullptr => True
  | Ptr e => ∃ p, mem h !! e = Some (BCharPtr p)
  end.

(** [result] is null or points to a record. *)
Definition valid_result (result : ptr) (h : heap) : Prop :=
  match result with
  | nullptr => True
  | Ptr res => is_Some (load_sentence res h)
  end.

(** [word] points to a WordRecord the caller holds. *)
Definition valid_word (word : ptr) (h : heap) : Prop :=
  ∃ a cells, word = Ptr a ∧ mem h !! a = Some (BWords cells) ∧ (0 < length cells)%nat.

(** A record as [udpipe_sentence_create] leaves it. *)
Definition zeroed : UDPipeSentence :=
  {| words := nullptr; word_count := 0; text := nullptr |}.

(** ** The copies duplicate_string makes *)

(** What one call of [duplicate_string] leaves behind. *)
Definition duplicated (str : string) (h : heap) (p : ptr) (h' : heap) : Prop :=
  match p with
  | nullptr =>
      mem h' = mem h
      ∧ (str = EmptyString ∧ oracle h' = oracle h
         ∨ str ≠ EmptyString ∧ oracle h = false :: oracle h')
  | Ptr a =>
      str ≠ EmptyString ∧ malloc_succeeds h ∧ oracle h' = tail (oracle h)
      ∧ mem h !! a = None
      ∧ ∃ buf, mem h' = <[a := BChars buf]> (mem h)
               ∧ length buf = (String.length str + 1)%nat
               ∧ read_c_str buf = Some (from_c_str str)
  end.

(** What a granted [duplicate_string(str)] reads as. *)
Definition transferred (str : string) : option string :=
  if decide (str = EmptyString) then None else Some (from_c_str str).

(** The eight texts of a word, in the order the wrapper copies them. *)
Definition texts_of (w : udpipe.word) : list string :=
  [udpipe.form w; udpipe.lemma w; udpipe.upostag w; udpipe.xpostag w;
   udpipe.feats w; udpipe.deprel w; udpipe.deps w; udpipe.misc w].

(** [duplicate_string] on each text of a list, left to right. *)
Fixpoint duplicate_strings (strs : list string) (h : heap)
  : option (list ptr * heap) :=
  match strs with
  | [] => Some ([], h)
  | str :: strs =>
      '(p, h) ← duplicate_string str h;
      '(ps, h) ← duplicate_strings strs h;
      Some (p :: ps, h)
  end.

(** The WordRecord built from a word and the eight copies of its texts. *)
Definition word_record (w : udpipe.word) (ps : list ptr) : option UDPipeWord :=
  match ps with
  | [form'; lemma'; upostag'; xpostag'; feats'; deprel'; deps'; misc'] =>
      Some {| id := udpipe.id w; form := form'; lemma := lemma';
              upostag := upostag'; xpostag := xpostag'; feats := feats';
              head := udpipe.head w; deprel := deprel'; deps := deps';
              misc := misc' |}
  | _ => None
  end.

(** A [std::string] with a NUL inside: the three characters a, NUL, b. *)
Definition embedded_nul : string := String "a" (String NUL (String "b" EmptyString)).

(** ** Reading records back, as a caller does *)

(** The text behind a [char*]: [None] for a null pointer. *)
Definition read_string (p : ptr) (h : heap) : option (option string) :=
  match p with
  | nullptr => Some None
  | Ptr a =>
      match mem h !! a with
      | Some (BChars buf) => Some <$> read_c_str buf
      | _ => None
      end
  end.

Definition string_fields (w : UDPipeWord) : list ptr :=
  [form w; lemma w; upostag w; xpostag w; feats w; deprel w; deps w; misc w].

(** The ten fields of a WordRecord by value: [id], [head] and the eight
    texts in the order of the struct. *)
Definition word_value : Type := Z * Z * list (option string).

Definition read_word (w : UDPipeWord) (h : heap) : option word_value :=
  texts ← mapM (λ p, read_string p h) (string_fields w);
  Some (id w, head w, texts).

Definition read_words (p : ptr) (n : nat) (h : heap) : option (list word_value) :=
  mapM (λ i, w ← load_cell p i h; read_word w h) (seq 0 n).

(** A SentenceRecord by value: the count, the words and the text. *)
Definition read_sentence (res : addr) (h : heap)
  : option (nat * list word_value * option string) :=
  r ← load_sentence res h;
  ws ← read_words (words r) (word_count r) h;
  t ← read_string (text r) h;
  Some (word_count r, ws, t).

(** A word of the library by value, every text transferred. *)
Definition word_value_of (w : udpipe.word) : word_value :=
  (udpipe.id w, udpipe.head w, transferred <$> texts_of w).

(** The invariant of a SentenceRecord: [word_count] is the length of
    [words], and a record without words has no array. *)
Definition sentence_invariant (res : addr) (h : heap) : Prop :=
  ∃ r, load_sentence res h = Some r
    ∧ match words r with
      | nullptr => word_count r = 0%nat
      | Ptr a => (0 < word_count r)%nat
                 ∧ ∃ cells, mem h !! a = Some (BWords cells)
                            ∧ length cells = word_count r
      end.

(** ** Frames *)

(** The character buffers of [h] are still there, as they were, in [h']. *)
Definition chars_kept (h h' : heap) : Prop :=
  ∀ a buf, mem h !! a = Some (BChars buf) → mem h' !! a = Some (BChars buf).

(** The blocks of [h] outside [E] are still there, as they were, in [h']. *)
Definition kept (E : gset addr) (h h' : heap) : Prop :=
  ∀ a b, a ∉ E → mem h !! a = Some b → mem h' !! a = Some b.

(** ** The stages of udpipe_process_text *)

(** How the stages before [// Extract results] end: with the parsed
    sentence, with a [return 0] and its message, or in an exception. *)
Inductive stage_result :=
| Parsed (s : udpipe.sentence)
| Failed (msg : string)
| Thrown (e : udpipe.exception).

(** Lines 66-108 without the heap, which they do not touch before they
    fail. *)
Definition stages (udpipe_model : udpipe.model) (text : string) : stage_result :=
  match udpipe.new_tokenizer udpipe_model udpipe.TOKENIZER_NORMALIZED_SPACES with
  | udpipe.throws e => Thrown e
  | udpipe.returns None => Failed "Failed to create tokenizer"
  | udpipe.returns (Some tokenizer) =>
  match udpipe.next_sentence tokenizer (from_c_str text) with
  | udpipe.throws e => Thrown e
  | udpipe.returns (false, _, error) => Failed (error_or error "No sentence found")
  | udpipe.returns (true, s, error) =>
  match udpipe.tag udpipe_model s udpipe.DEFAULT error with
  | udpipe.throws e => Thrown e
  | udpipe.returns (false, _, error) => Failed (error_or error "POS tagging failed")
  | udpipe.returns (true, s, error) =>
  match udpipe.parse udpipe_model s udpipe.DEFAULT error with
  | udpipe.throws e => Thrown e
  | udpipe.returns (false, _, error) =>
      Failed (error_or error "Dependency parsing failed")
  | udpipe.returns (true, s, error) => Parsed s
  end end end end.

(** The description the model layer supplied is empty as a C string: an
    [error] text or a [what()] with nothing before its first NUL. *)
Definition empty_description (model_ptr : option udpipe.model)
    (text : option string) : Prop :=
  ∃ m t msg, model_ptr = Some m ∧ text = Some t
    ∧ (stages m t = Failed msg ∨ stages m t = Thrown (udpipe.std_exception msg))
    ∧ from_c_str msg = EmptyString.

(** ** What a failing call leaves *)

(** Between [h] and [h'] the variable at [e] was assigned the result of one
    [duplicate_string(msg)], and nothing else happened: a fresh buffer that
    reads [msg], or null when [msg] is empty or the allocator refused. *)
Definition error_written (e : addr) (msg : string) (h h' : heap) : Prop :=
  ∃ p, mem h' !! e = Some (BCharPtr p)
     ∧ (∀ a, a ≠ e → Ptr a ≠ p → mem h' !! a = mem h !! a)
     ∧ match p with
       | nullptr => msg = EmptyString ∨ ¬ malloc_succeeds h
       | Ptr a => mem h !! a = None ∧ msg ≠ EmptyString ∧ malloc_succeeds h
                  ∧ ∃ buf, mem h' !! a = Some (BChars buf)
                           ∧ read_c_str buf = Some msg
       end.

(** What a failing path of [udpipe_process_text] leaves: with a null
    [error_msg] the heap as it was, otherwise the message written. *)
Definition failure_reported (error_msg : ptr) (msg : string) (h h' : heap) : Prop :=
  match error_msg with
  | nullptr => h' = h
  | Ptr e => error_written e msg h h'
  end.

(** After a failed call the variable at [e] holds null or a fresh, owned,
    non-empty description. *)
Definition error_delivered (e : addr) (h h' : heap) (p : ptr) : Prop :=
  mem h' !! e = Some (BCharPtr p)
  ∧ match p with
    | nullptr => True
    | Ptr a => mem h !! a = None
               ∧ ∃ buf msg, mem h' !! a = Some (BChars buf)
                            ∧ read_c_str buf = Some msg ∧ msg ≠ EmptyString
    end.

(** After a failed call the record at [result] points to nothing the call
    allocated: [text] is what it was and [words] is what it was or null. *)
Definition gained_nothing (result : ptr) (h h' : heap) : Prop :=
  match result with
  | nullptr => True
  | Ptr res =>
      ∃ r r', load_sentence res h = Some r ∧ load_sentence res h' = Some r'
              ∧ text r' = text r ∧ (words r' = words r ∨ words r' = nullptr)
  end.

(** ** Example data: a model that finds the sentence "The cat" in every
    text but the empty one, where it finds none *)

Definition example_The : udpipe.word :=
  {| udpipe.id := 1; udpipe.form := "The"; udpipe.lemma := "the";
     udpipe.upostag := "DET"; udpipe.xpostag := ""; udpipe.feats := "";
     udpipe.head := 2; udpipe.deprel := "det"; udpipe.deps := "";
     udpipe.misc := "" |}.

Definition example_cat : udpipe.word :=
  {| udpipe.id := 2; udpipe.form := "cat"; udpipe.lemma := "cat";
     udpipe.upostag := "NOUN"; udpipe.xpostag := ""; udpipe.feats := "";
     udpipe.head := 0; udpipe.deprel := "root"; udpipe.deps := "";
     udpipe.misc := "" |}.

Definition example_sentence : udpipe.sentence :=
  {| udpipe.words := [example_The; example_cat] |}.

Definition example_tokenizer : udpipe.input_format :=
  {| udpipe.next_sentence := λ text,
       if decide (text = EmptyString)
       then udpipe.returns (false, {| udpipe.words := [] |}, EmptyString)
       else udpipe.returns (true, example_sentence, EmptyString) |}.

Definition example_model : udpipe.model :=
  {| udpipe.new_tokenizer := λ _, udpipe.returns (Some example_tokenizer);
     udpipe.tag := λ s _ error, udpipe.returns (true, s, error);
     udpipe.parse := λ s _ error, udpipe.returns (true, s, error) |}.

(** A model whose tokenizer construction throws a [std::exception] with an
    empty [what()]. *)
Definition silent_throwing_model : udpipe.model :=
  {| udpipe.new_tokenizer := λ _, udpipe.throws (udpipe.std_exception EmptyString);
     udpipe.tag := λ s _ error, udpipe.returns (true, s, error);
     udpipe.parse := λ s _ error, udpipe.returns (true, s, error) |}.

(** A model whose tokenizer construction throws something that is no
    [std::exception]. *)
Definition aborting_model : udpipe.model :=
  {| udpipe.new_tokenizer := λ _, udpipe.throws udpipe.other_exception;
     udpipe.tag := λ s _ error, udpipe.returns (true, s, error);
     udpipe.parse := λ s _ error, udpipe.returns (true, s, error) |}.

(** A caller's heap: a zeroed record at address 1, a null [char*] variable
    for the error at address 2, a WordRecord not yet written at address 3,
    a second zeroed record at address 4, and the allocator outcomes [o]. *)
Definition example_heap (o : list bool) : heap :=
  {| mem := {[ 1%positive := BSentence zeroed; 2%positive := BCharPtr nullptr;
               3%positive := BWords [None]; 4%positive := BSentence zeroed ]};
     oracle := o |}.

(** ** Ownership *)

(** The addresses behind the non-null pointers of a list. *)
Fixpoint addrs_of (ps : list ptr) : list addr :=
  match ps with
  | [] => []
  | nullptr :: ps => addrs_of ps
  | Ptr a :: ps => a :: addrs_of ps
  end.

(** [udpipe_free_string] on each pointer of a list, left to right: what a
    caller does with the texts of a WordRecord it was given. *)
Fixpoint free_strings (ps : list ptr) (h : heap) : option heap :=
  match ps with
  | [] => Some h
  | p :: ps => h ← udpipe_free_string p h; free_strings ps h
  end.

(** Between [h] and [h'] the blocks at [X] were released and nothing else
    happened. *)
Definition released (X : list addr) (h h' : heap) : Prop :=
  oracle h' = oracle h
  ∧ ∀ a, mem h' !! a = if decide (a ∈ X) then None else mem h !! a.

(** Every pointer a record holds, in the order [udpipe_sentence_destroy]
    frees them: the texts of the words, the array, the text. *)
Definition owned_pointers (r : UDPipeSentence) (ws : list UDPipeWord) : list ptr :=
  (ws ≫= string_fields) ++ [words r; text r].

(** The record at [res] in [h'] holds the words [ws], and what it points
    to it owns: the blocks behind its non-null pointers are distinct, were
    not there in [h], and no other block but the record differs from [h]. *)
Definition populated_from (h : heap) (res : addr) (h' : heap)
    (r : UDPipeSentence) (ws : list UDPipeWord) : Prop :=
  load_sentence res h' = Some r
  ∧ word_count r = length ws
  ∧ match words r with
    | nullptr => ws = []
    | Ptr arr => mem h' !! arr = Some (BWords (Some <$> ws))
    end
  ∧ NoDup (addrs_of (owned_pointers r ws))
  ∧ (∀ a, a ∈ addrs_of (owned_pointers r ws) →
       mem h !! a = None ∧ is_Some (mem h' !! a))
  ∧ (∀ a, a ∉ addrs_of (owned_pointers r ws) → a ≠ res →
       mem h' !! a = mem h !! a).


(** * The wrapper with its std::string temporaries

    [duplicate_string] takes a [const std::string&].  Where the wrapper
    calls it with a [const char*] - lines 60, 75, 89, 97, 105, 116, 138,
    144 and 149 - a [std::string] temporary is built first.  A temporary
    that does not fit the small-string buffer takes its storage from
    [operator new], which throws [std::bad_alloc] when it is refused.
    Inside the [try] block (lines 65-141) the exception is caught by the
    handler of line 142; on line 60, before the block, and on lines 144
    and 149, inside the handlers, it leaves the function.

    [udpipe_process_text] and its parts above are the calls in which every
    temporary is built.  The definitions of this module take the outcomes
    of those constructions as well, and a call ends in a [return] or in an
    exception that leaves the function. *)
Module Cxx.

(** What the C++ runtime adds to the heap: the longest text a
    [std::string] holds in its own buffer (15 characters in libstdc++),
    the [what()] of [std::bad_alloc], and the outcomes of the coming
    requests of temporaries to [operator new], [false] for a request that
    is refused; once the list is exhausted every request is granted.  The
    storage of a temporary is released at the end of the statement that
    built it and is no block of [mem]. *)
Record runtime := {
  small_capacity : nat;
  bad_alloc_what : string;
  news : list bool
}.

(** The runtime with [o] as the outcomes still to come. *)
Definition with_news (rt : runtime) (o : list bool) : runtime :=
  {| small_capacity := small_capacity rt; bad_alloc_what := bad_alloc_what rt;
     news := o |}.

(** [std::string(const char* p)] as a temporary. *)
Definition make_string (p : string) (rt : runtime) : udpipe.outcome string * runtime :=
  if decide (String.length (from_c_str p) ≤ small_capacity rt)%nat
  then (udpipe.returns (from_c_str p), rt)
  else
    match news rt with
    | false :: o =>
        (udpipe.throws (udpipe.std_exception (bad_alloc_what rt)), with_news rt o)
    | true :: o =>
        (udpipe.returns (from_c_str p), with_news rt o)
    | [] => (udpipe.returns (from_c_str p), rt)
    end.

(** [if (error_msg) { *error_msg = duplicate_string(msg); }] for a
    [const char* msg]: the temporary, the copy, the store. *)
Definition set_error (error_msg : ptr) (msg : string) (rt : runtime) (h : heap)
  : option (udpipe.outcome unit * runtime * heap) :=
  match error_msg with
  | nullptr => Some (udpipe.returns (), rt, h)
  | Ptr e =>
      match make_string msg rt with
      | (udpipe.throws ex, rt) => Some (udpipe.throws ex, rt, h)
      | (udpipe.returns str, rt) =>
          '(p, h) ← duplicate_string str h;
          match mem h !! e with
          | Some (BCharPtr _) => Some (udpipe.returns (), rt, store e (BCharPtr p) h)
          | _ => None
          end
      end
  end.

(** [set_error] followed by [return 0]. *)
Definition fail_with (error_msg : ptr) (msg : string) (rt : runtime) (h : heap)
  : option (udpipe.outcome Z * runtime * heap) :=
  r ← set_error error_msg msg rt h;
  match r with
  | (udpipe.returns _, rt, h) => Some (udpipe.returns 0, rt, h)
  | (udpipe.throws ex, rt, h) => Some (udpipe.throws ex, rt, h)
  end.

(** The two handlers (lines 142-152).  An exception of their own
    temporary is not caught again. *)
Definition handler (error_msg : ptr) (e : udpipe.exception) (rt : runtime) (h : heap)
  : option (udpipe.outcome Z * runtime * heap) :=
  match e with
  | udpipe.std_exception what => fail_with error_msg what rt h
  | udpipe.other_exception => fail_with error_msg "Unknown error occurred" rt h
  end.

(** [// Extract results] to [return 1] (lines 110-140).  [inl] is what
    leaves the [if]: the [return 0] of line 118 or the exception of the
    temporary of line 116.  On line 138 the temporary of [text] is built
    after the record has received its count, its array and its words. *)
Definition extract_results (s : udpipe.sentence) (text : string) (res : addr)
    (error_msg : ptr) (rt : runtime) (h : heap)
  : option (udpipe.outcome Z * runtime * heap) :=
  let n := length (udpipe.words s) in
  h ← assign res (set_word_count n) h;
  b ← (if decide (0 < n)%nat then
         let '(array, h) := malloc (BWords (replicate n None)) h in
         h ← assign res (set_words array) h;
         match array with
         | nullptr =>
             r ← fail_with error_msg "Memory allocation failed" rt h; Some (inl r)
         | Ptr _ => h ← for_loop 0 n (extract_word s array) h; Some (inr h)
         end
       else Some (inr h));
  match b with
  | inl r => Some r
  | inr h =>
      match make_string text rt with
      | (udpipe.throws ex, rt) => Some (udpipe.throws ex, rt, h)
      | (udpipe.returns str, rt) =>
          '(copy, h) ← duplicate_string str h;
          h ← assign res (set_text copy) h;
          Some (udpipe.returns 1, rt, h)
      end
  end.

(** The [try] block (lines 65-141): the stages, then the extraction.  It
    ends in a [return] or in an exception, of the library or of a
    temporary, for the handlers.  The objects of the library the block
    constructs between its calls ([sentence s], [std::string error]) are
    part of the stages: an exception of theirs is handled as one of the
    call that follows. *)
Definition try_block (udpipe_model : udpipe.model) (text : string) (res : addr)
    (error_msg : ptr) (rt : runtime) (h : heap)
  : option (udpipe.outcome Z * runtime * heap) :=
  match stages udpipe_model text with
  | Thrown e => Some (udpipe.throws e, rt, h)
  | Failed msg => fail_with error_msg msg rt h
  | Parsed s => extract_results s text res error_msg rt h
  end.

(** [int udpipe_process_text(void* model_ptr, const char* text,
    UDPipeSentence* result, char** error_msg)] *)
Definition udpipe_process_text (model_ptr : option udpipe.model)
    (text : option string) (result error_msg : ptr) (rt : runtime) (h : heap)
  : option (udpipe.outcome Z * runtime * heap) :=
  match model_ptr, text, result with
  | Some udpipe_model, Some text, Ptr res =>
      r ← try_block udpipe_model text res error_msg rt h;
      match r with
      | (udpipe.returns ret, rt, h) => Some (udpipe.returns ret, rt, h)
      | (udpipe.throws e, rt, h) => handler error_msg e rt h
      end
  | _, _, _ => fail_with error_msg "Invalid parameters" rt h
  end.

End Cxx.

(** ** The temporaries *)

(** The temporary for the [const char*] [p] is built. *)
Definition built (p : string) (rt : Cxx.runtime) : Prop :=
  ∃ rt', Cxx.make_string p rt = (udpipe.returns (from_c_str p), rt').

(** No coming request of a temporary is refused: every temporary is
    built. *)
Definition constructed (rt : Cxx.runtime) : Prop :=
  Forall (λ b, b = true) (Cxx.news rt).

(** A call of the functions above that returns [r], seen as a call of the
    ones of [Cxx] that leaves the runtime [rt]. *)
Definition returned (rt : Cxx.runtime) (r : Z * heap)
  : udpipe.outcome Z * Cxx.runtime * heap :=
  (udpipe.returns r.1, rt, r.2).

(** The runtime of libstdc++ with the outcomes [o] for its temporaries. *)
Definition example_runtime (o : list bool) : Cxx.runtime :=
  {| Cxx.small_capacity := 15; Cxx.bad_alloc_what := "std::bad_alloc";
     Cxx.news := o |}.

(** A text of 22 characters, longer than a small-string buffer takes. *)
Definition long_text : string := "The cat sat on the mat".

(** * Properties *)

(** One step of the option monad: [Some x ≫= f] to [f x], and no more. *)
Ltac step := cbn [mbind option_bind].

(** ** C strings *)

Lemma from_c_str_idemp p : from_c_str (from_c_str p) = from_c_str p.
Proof.
  induction p as [|c r IH]; simpl; [done|].
  destruct (decide (c = NUL)) as [->|Hc]; simpl; [done|].
  destruct (decide (c = NUL)); [done|]. by rewrite IH.
Qed.

Lemma length_c_str str : length (c_str str) = (String.length str + 1)%nat.
Proof. induction str as [|c r IH]; simpl; [done|]. by rewrite IH. Qed.

Lemma length_from_c_str p : (String.length (from_c_str p) ≤ String.length p)%nat.
Proof.
  induction p as [|c r IH]; simpl; [done|].
  destruct (decide (c = NUL)); simpl; lia.
Qed.

(** [strcpy] stops at the first NUL of [str.c_str()], which is where
    [std::string(const char* )] stops too. *)
Lemma strcpy_bytes_c_str str : strcpy_bytes (c_str str) = c_str (from_c_str str).
Proof.
  induction str as [|c r IH]; simpl.
  - by destruct (decide (NUL = NUL)).
  - destruct (decide (c = NUL)) as [->|Hc]; simpl; [done|]. by rewrite IH.
Qed.

Lemma read_c_str_written p rest :
  read_c_str ((Some <$> c_str (from_c_str p)) ++ rest) = Some (from_c_str p).
Proof.
  induction p as [|c r IH]; simpl.
  - by destruct (decide (NUL = NUL)).
  - destruct (decide (c = NUL)) as [->|Hc]; simpl.
    + by destruct (decide (NUL = NUL)).
    + destruct (decide (c = NUL)); [done|].
      change (list_fmap ascii (option ascii) Some) with (fmap (M:=list) (@Some ascii)).
      by rewrite IH.
Qed.

Lemma strcpy_c_str str :
  ∃ buf, strcpy (replicate (String.length str + 1) None) (c_str str) = Some buf
         ∧ length buf = (String.length str + 1)%nat
         ∧ read_c_str buf = Some (from_c_str str).
Proof.
  unfold strcpy. rewrite strcpy_bytes_c_str.
  pose proof (length_from_c_str str) as Hle.
  destruct (decide _) as [Hfit|Hover].
  - eexists; split; [done|]. split; [|apply read_c_str_written].
    rewrite length_app, length_fmap, length_drop, length_replicate.
    rewrite length_replicate in Hfit. lia.
  - exfalso. apply Hover. rewrite length_c_str, length_replicate. lia.
Qed.

(** ** The allocator *)

Lemma malloc_spec init h :
  match malloc init h with
  | (nullptr, h') => mem h' = mem h ∧ oracle h = false :: oracle h'
  | (Ptr a, h') =>
      mem h !! a = None ∧ mem h' = <[a := init]> (mem h) ∧ malloc_succeeds h
      ∧ oracle h' = tail (oracle h)
  end.
Proof.
  unfold malloc, malloc_succeeds.
  destruct (oracle h) as [|[] o] eqn:Ho; simpl; try done;
    (split; [apply (not_elem_of_dom (D:=gset addr)), is_fresh|done]).
Qed.

(** ** duplicate_string *)

Lemma duplicate_string_spec str h :
  ∃ p h', duplicate_string str h = Some (p, h') ∧ duplicated str h p h'.
Proof.
  unfold duplicate_string. destruct (decide (str = EmptyString)) as [->|Hne].
  { exists nullptr, h. simpl. auto. }
  pose proof (malloc_spec (BChars (replicate (String.length str + 1) None)) h) as Hm.
  destruct (malloc _ h) as [[|a] h1].
  - destruct Hm as [Hmem Ho]. exists nullptr, h1. simpl. auto.
  - destruct Hm as (Hfresh & Hmem & Hok & Ho).
    destruct (strcpy_c_str str) as (buf & -> & Hlen & Hread). simpl.
    eexists _, _. split; [done|]. simpl. repeat split; try done.
    exists buf. repeat split; try done.
    rewrite Hmem. apply insert_insert_eq.
Qed.

(** C4 (amended).  When the allocator grants the request,
    [duplicate_string] returns null exactly for the empty string and leaves
    the heap alone then; otherwise it returns the address of a fresh block
    of [length + 1] characters, no other block touched, that reads as the
    input up to its first NUL - as the input itself when no NUL occurs in
    it. *)
Theorem C4_duplicate_string (str : string) (h : heap) :
  malloc_succeeds h →
  ∃ p h', duplicate_string str h = Some (p, h')
    ∧ (p = nullptr ↔ str = EmptyString)
    ∧ (str = EmptyString → h' = h)
    ∧ (∀ a, p = Ptr a →
         mem h !! a = None
         ∧ ∃ buf, mem h' = <[a := BChars buf]> (mem h)
             ∧ length buf = (String.length str + 1)%nat
             ∧ read_c_str buf = Some (from_c_str str)
             ∧ (from_c_str str = str → read_c_str buf = Some str)).
Proof.
  intros Hok.
  destruct (duplicate_string_spec str h) as (p & h' & Hrun & Hdup).
  exists p, h'. split; [done|].
  destruct p as [|a]; simpl in Hdup.
  - destruct Hdup as [Hmem [[-> Ho]|[Hne Ho]]].
    + split; [done|]. split; [|done].
      intros _. destruct h, h'; simpl in *; congruence.
    + exfalso. unfold malloc_succeeds in Hok. by rewrite Ho in Hok.
  - destruct Hdup as (Hne & _ & _ & Hfresh & buf & Hmem & Hlen & Hread).
    split; [done|]. split; [done|].
    intros a' [= <-]. split; [done|]. exists buf.
    split; [done|]. split; [done|]. split; [done|]. congruence.
Qed.

Lemma C4_duplicate_string_witness :
  ∃ p h', duplicate_string "The" empty_heap = Some (p, h')
    ∧ (p = nullptr ↔ "The" = EmptyString).
Proof.
  destruct (C4_duplicate_string "The" empty_heap) as (p & h' & Hrun & Hiff & _).
  - exact I.
  - exists p, h'. split; [exact Hrun | exact Hiff].
Defined.

(** C4, as stated, fails on a string with an embedded NUL: the buffer
    returned reads "a", not the three characters of the input. *)
Lemma C4_counterexample :
  ∃ a h' buf,
    duplicate_string embedded_nul empty_heap = Some (Ptr a, h')
    ∧ mem h' !! a = Some (BChars buf)
    ∧ read_c_str buf = Some "a"
    ∧ read_c_str buf ≠ Some embedded_nul.
Proof.
  eexists _, _, _. split; [vm_compute; reflexivity|].
  split; [vm_compute; reflexivity|]. split; [vm_compute; reflexivity|].
  vm_compute. discriminate.
Qed.

(** ** The error channel *)

Lemma duplicated_lookup str h p h' a b :
  duplicated str h p h' → mem h !! a = Some b → mem h' !! a = Some b.
Proof.
  destruct p as [|a0]; simpl.
  - intros [-> _]. done.
  - intros (_ & _ & _ & Hfresh & buf & -> & _) Ha.
    rewrite lookup_insert_ne; [done|]. congruence.
Qed.

Lemma set_error_spec error_msg msg h :
  valid_error_msg error_msg h →
  ∃ h', set_error error_msg msg h = Some h'
        ∧ failure_reported error_msg (from_c_str msg) h h'.
Proof.
  destruct error_msg as [|e]; simpl; [eauto|].
  intros [p0 He].
  destruct (duplicate_string_spec (from_c_str msg) h) as (p & h1 & -> & Hdup).
  simpl. rewrite (duplicated_lookup _ _ _ _ _ _ Hdup He).
  eexists; split; [done|]. exists p. simpl.
  split; [apply lookup_insert_eq|]. split.
  - intros a Hae Hap. rewrite lookup_insert_ne; [|done].
    destruct p as [|a0]; simpl in Hdup.
    + by destruct Hdup as [-> _].
    + destruct Hdup as (_ & _ & _ & _ & buf & -> & _).
      rewrite lookup_insert_ne; [done|]. congruence.
  - destruct p as [|a0]; simpl in Hdup.
    + destruct Hdup as [_ [[? _]|[_ Ho]]]; [by left|right].
      unfold malloc_succeeds. rewrite Ho. simpl. tauto.
    + destruct Hdup as (Hne & Hok & _ & Hfresh & buf & Hmem & _ & Hread).
      split; [done|]. split; [done|]. split; [done|]. exists buf.
      rewrite from_c_str_idemp in Hread. split; [|done].
      rewrite lookup_insert_ne; [|congruence].
      rewrite Hmem. apply lookup_insert_eq.
Qed.

Lemma fail_with_spec error_msg msg h :
  valid_error_msg error_msg h →
  ∃ h', fail_with error_msg msg h = Some (0, h')
        ∧ failure_reported error_msg (from_c_str msg) h h'.
Proof.
  intros Hv. destruct (set_error_spec error_msg msg h Hv) as (h' & Hrun & Hrep).
  exists h'. unfold fail_with. rewrite Hrun. done.
Qed.

Lemma failure_reported_granted e msg h h' :
  failure_reported (Ptr e) msg h h' → msg ≠ EmptyString → malloc_succeeds h →
  ∃ a buf, mem h' !! e = Some (BCharPtr (Ptr a)) ∧ mem h !! a = None
           ∧ mem h' !! a = Some (BChars buf) ∧ read_c_str buf = Some msg.
Proof.
  intros (p & He & _ & Hp) Hne Hok. destruct p as [|a].
  - by destruct Hp.
  - destruct Hp as (Hfresh & _ & _ & buf & Hbuf & Hread). by exists a, buf.
Qed.

(** C3, as stated, fails on the empty text, every temporary built: the
    call goes on to the tokenizer, the failure it reports is "No sentence
    found", and the copy of that message is allocated. *)
Lemma C3_counterexample :
  ∃ a h' buf,
    udpipe_process_text (Some example_model) (Some EmptyString) (Ptr 1%positive)
      (Ptr 2%positive) (example_heap []) = Some (0, h')
    ∧ mem h' !! 2%positive = Some (BCharPtr (Ptr a))
    ∧ mem (example_heap []) !! a = None
    ∧ mem h' !! a = Some (BChars buf)
    ∧ read_c_str buf = Some "No sentence found".
Proof.
  eexists _, _, _. split; [vm_compute; reflexivity|].
  repeat split; vm_compute; reflexivity.
Qed.

(** ** udpipe_sentence_create and udpipe_sentence_destroy *)

(** C5.  [udpipe_sentence_destroy] on a null pointer leaves the heap as it
    is; on a zero-initialised record it runs without undefined behaviour
    and releases the record's own block and nothing else; on a record
    fresh from [udpipe_sentence_create] it gives back the heap that was
    there before the creation. *)
Theorem C5_destroy_zeroed (h : heap) :
  udpipe_sentence_destroy nullptr h = Some h
  ∧ (∀ a, mem h !! a = Some (BSentence zeroed) →
       udpipe_sentence_destroy (Ptr a) h
       = Some {| mem := delete a (mem h); oracle := oracle h |})
  ∧ (∀ p h1, udpipe_sentence_create h = (p, h1) →
       ∃ h2, udpipe_sentence_destroy p h1 = Some h2 ∧ mem h2 = mem h).
Proof.
  split; [done|]. split.
  - intros a Ha. unfold udpipe_sentence_destroy, load_sentence.
    rewrite Ha. simpl. by rewrite Ha.
  - intros p h1 Hc. unfold udpipe_sentence_create in Hc.
    pose proof (malloc_spec (BSentence {| words := nullptr; word_count := 0;
                                          text := nullptr |}) h) as Hm.
    rewrite Hc in Hm. destruct p as [|a].
    + destruct Hm as [Hmem _]. by exists h1.
    + destruct Hm as (Hfresh & Hmem & _).
      unfold udpipe_sentence_destroy, load_sentence.
      rewrite Hmem, lookup_insert_eq. simpl. rewrite Hmem, lookup_insert_eq.
      eexists; split; [done|]. simpl. by apply delete_insert_id.
Qed.

Lemma C5_destroy_zeroed_witness :
  udpipe_sentence_destroy (Ptr 1%positive) (example_heap [])
  = Some {| mem := delete 1%positive (mem (example_heap []));
            oracle := oracle (example_heap []) |}.
Proof.
  apply (C5_destroy_zeroed (example_heap [])). vm_compute. reflexivity.
Defined.

(** ** Frames *)

Lemma chars_kept_refl h : chars_kept h h.
Proof. by intros a buf. Qed.

Lemma chars_kept_trans h1 h2 h3 :
  chars_kept h1 h2 → chars_kept h2 h3 → chars_kept h1 h3.
Proof. intros H12 H23 a buf Ha. eauto. Qed.

Lemma kept_refl E h : kept E h h.
Proof. by intros a b. Qed.

Lemma kept_trans E h1 h2 h3 : kept E h1 h2 → kept E h2 h3 → kept E h1 h3.
Proof. intros H12 H23 a b Ha Hb. eauto. Qed.

Lemma subseteq_kept E h h' : mem h ⊆ mem h' → kept E h h'.
Proof. intros Hsub a b _ Ha. by eapply lookup_weaken. Qed.

Lemma subseteq_chars_kept h h' : mem h ⊆ mem h' → chars_kept h h'.
Proof. intros Hsub a buf Ha. by eapply lookup_weaken. Qed.

Lemma kept_store E a b h : a ∈ E → kept E h (store a b h).
Proof.
  intros Ha a' b' Ha' Hb'. simpl. rewrite lookup_insert_ne; [done|]. set_solver.
Qed.

Lemma chars_kept_store a b h :
  (∀ buf, mem h !! a ≠ Some (BChars buf)) → chars_kept h (store a b h).
Proof.
  intros Ha a' buf Hb. simpl. rewrite lookup_insert_ne; [done|].
  intros ->. by eapply Ha.
Qed.

Create HintDb frame.
#[local] Hint Resolve chars_kept_refl kept_refl subseteq_kept subseteq_chars_kept
  : frame.

Lemma read_string_kept p h h' v :
  chars_kept h h' → read_string p h = Some v → read_string p h' = Some v.
Proof.
  intros Hk. destruct p as [|a]; simpl; [done|].
  destruct (mem h !! a) as [[buf| | |]|] eqn:Ha; try done.
  by rewrite (Hk _ _ Ha).
Qed.

Lemma read_strings_kept ps h h' vs :
  chars_kept h h' →
  mapM (λ p, read_string p h) ps = Some vs →
  mapM (λ p, read_string p h') ps = Some vs.
Proof.
  intros Hk. rewrite !mapM_Some. intros Hall.
  eapply Forall2_impl; [exact Hall|]. intros p v. by apply read_string_kept.
Qed.

Lemma read_word_kept w h h' v :
  chars_kept h h' → read_word w h = Some v → read_word w h' = Some v.
Proof.
  intros Hk. unfold read_word.
  destruct (mapM _ (string_fields w)) as [vs|] eqn:Hvs; [|done].
  by rewrite (read_strings_kept _ _ _ _ Hk Hvs).
Qed.

(** ** The copies of a word's texts *)

Lemma duplicated_subseteq str h p h' : duplicated str h p h' → mem h ⊆ mem h'.
Proof.
  destruct p as [|a]; simpl.
  - by intros [-> _].
  - intros (_ & _ & _ & Hfresh & buf & -> & _). by apply insert_subseteq.
Qed.

Lemma duplicated_granted str h p h' :
  duplicated str h p h' → all_granted h →
  all_granted h' ∧ read_string p h' = Some (transferred str).
Proof.
  unfold all_granted, transferred. destruct p as [|a]; simpl.
  - intros [_ [[-> Ho]|[Hne Ho]]] Hg.
    + by rewrite Ho.
    + rewrite Ho in Hg. by apply Forall_cons_1 in Hg as [? _].
  - intros (Hne & _ & Ho & _ & buf & -> & _ & Hread) Hg.
    rewrite Ho, lookup_insert_eq, Hread. split.
    + destruct (oracle h); [done|]. by apply Forall_cons_1 in Hg as [_ ?].
    + by destruct (decide (str = EmptyString)).
Qed.

Lemma duplicated_readable str h p h' :
  duplicated str h p h' → is_Some (read_string p h').
Proof.
  destruct p as [|a]; simpl; [done|].
  intros (_ & _ & _ & _ & buf & -> & _ & Hread).
  by rewrite lookup_insert_eq, Hread.
Qed.

Lemma duplicate_strings_spec strs h :
  ∃ ps h', duplicate_strings strs h = Some (ps, h')
    ∧ length ps = length strs
    ∧ mem h ⊆ mem h'
    ∧ is_Some (mapM (λ p, read_string p h') ps)
    ∧ (all_granted h →
         all_granted h'
         ∧ mapM (λ p, read_string p h') ps = Some (transferred <$> strs)).
Proof.
  revert h. induction strs as [|str strs IH]; intros h.
  { exists [], h. simpl. repeat split; done. }
  destruct (duplicate_string_spec str h) as (p & h1 & Hrun & Hdup).
  destruct (IH h1) as (ps & h2 & Hrun' & Hlen & Hsub & Hrd & Hg).
  exists (p :: ps), h2.
  pose proof (duplicated_subseteq _ _ _ _ Hdup) as Hsub1.
  pose proof (subseteq_chars_kept _ _ Hsub) as Hk.
  split; [simpl; rewrite Hrun; simpl; by rewrite Hrun'|].
  split; [simpl; by rewrite Hlen|].
  split; [by etrans|]. split.
  - destruct (duplicated_readable _ _ _ _ Hdup) as [v Hv].
    destruct Hrd as [vs Hvs]. exists (v :: vs).
    rewrite mapM_Some in *. constructor; [|done].
    by eapply read_string_kept.
  - intros Hall. destruct (duplicated_granted _ _ _ _ Hdup Hall) as [Hall1 Hv].
    destruct (Hg Hall1) as [Hall2 Hvs]. split; [done|].
    rewrite fmap_cons. rewrite mapM_Some in *. constructor; [|done].
    by eapply read_string_kept.
Qed.

Lemma copy_texts_spec w h :
  ∃ ps cw h', duplicate_strings (texts_of w) h = Some (ps, h')
    ∧ word_record w ps = Some cw
    ∧ id cw = udpipe.id w ∧ head cw = udpipe.head w
    ∧ mem h ⊆ mem h'
    ∧ is_Some (read_word cw h')
    ∧ (all_granted h →
         all_granted h' ∧ read_word cw h' = Some (word_value_of w)).
Proof.
  destruct (duplicate_strings_spec (texts_of w) h)
    as (ps & h' & Hrun & Hlen & Hsub & Hrd & Hg).
  do 9 (destruct ps as [|? ps]; try discriminate Hlen).
  eexists _, _, h'. split; [exact Hrun|]. split; [reflexivity|].
  split; [done|]. split; [done|]. split; [done|]. unfold read_word. split.
  - destruct Hrd as [vs Hvs].
    cbv [string_fields form lemma upostag xpostag feats deprel deps misc].
    rewrite Hvs. by eexists.
  - intros Hall. destruct (Hg Hall) as [Hall' Hvs]. split; [done|].
    cbv [string_fields form lemma upostag xpostag feats deprel deps misc].
    by rewrite Hvs.
Qed.

(** The loop body of [udpipe_process_text] and the body of
    [udpipe_sentence_get_word] make the same eight copies. *)
Lemma extract_word_eq s dest_array i h :
  extract_word s dest_array i h
  = (w ← udpipe.words s !! i;
     '(ps, h') ← duplicate_strings (texts_of w) h;
     cw ← word_record w ps;
     store_cell dest_array i cw h').
Proof.
  unfold extract_word. destruct (udpipe.words s !! i) as [w|]; [|done].
  simpl.
  repeat (destruct (duplicate_string _ _) as [[? ?]|]; simpl; [|done]).
  done.
Qed.

Lemma get_word_eq s index a h :
  udpipe_sentence_get_word (Some s) index (Ptr a) h
  = if decide (length (udpipe.words s) ≤ index)%nat then Some (0, h)
    else
      w ← udpipe.words s !! index;
      '(ps, h') ← duplicate_strings (texts_of w) h;
      cw ← word_record w ps;
      h'' ← store_cell (Ptr a) 0 cw h';
      Some (1, h'').
Proof.
  unfold udpipe_sentence_get_word. destruct (decide _); [done|].
  destruct (udpipe.words s !! index) as [w|]; [|done].
  simpl.
  repeat (destruct (duplicate_string _ _) as [[? ?]|]; simpl; [|done]).
  done.
Qed.

Lemma store_cell_spec a cells i w h :
  mem h !! a = Some (BWords cells) → (i < length cells)%nat →
  store_cell (Ptr a) i w h = Some (store a (BWords (<[i := Some w]> cells)) h).
Proof.
  intros Ha Hi. unfold store_cell. rewrite Ha. by destruct (decide _).
Qed.

(** ** udpipe_sentence_get_word *)

(** C6.  On a sentence of N words [udpipe_sentence_get_word] with
    [index >= N] returns 0 and leaves the heap, the output record
    included, exactly as it was; with [index < N] and an output record to
    write to it returns 1, and the record then holds the word's [id] and
    [head] and eight texts that are null or readable buffers. *)
Theorem C6_get_word_bounds (s : udpipe.sentence) (index : nat) (word : ptr)
    (h : heap) :
  ((length (udpipe.words s) ≤ index)%nat →
     udpipe_sentence_get_word (Some s) index word h = Some (0, h))
  ∧ ((index < length (udpipe.words s))%nat → valid_word word h →
       ∃ h' w src,
         udpipe_sentence_get_word (Some s) index word h = Some (1, h')
         ∧ udpipe.words s !! index = Some src
         ∧ load_cell word 0 h' = Some w
         ∧ id w = udpipe.id src ∧ head w = udpipe.head src
         ∧ is_Some (read_word w h')).
Proof.
  split.
  - intros Hge. unfold udpipe_sentence_get_word.
    destruct word; [done|]. by destruct (decide _).
  - intros Hlt (a & cells & -> & Ha & Hcells). rewrite get_word_eq.
    destruct (decide _) as [Hge|_]; [lia|].
    destruct (lookup_lt_is_Some_2 _ _ Hlt) as [src Hsrc]. rewrite Hsrc.
    destruct (copy_texts_spec src h)
      as (ps & cw & h1 & Hdup & Hrec & Hid & Hhead & Hsub & Hrd & _).
    pose proof (lookup_weaken _ _ _ _ Ha Hsub) as Ha1.
    step. rewrite Hdup. step.
    rewrite Hrec. step.
    rewrite (store_cell_spec _ _ _ _ _ Ha1 Hcells). step.
    eexists _, cw, src. split; [done|]. split; [done|]. split.
    + unfold load_cell. simpl. rewrite lookup_insert_eq.
      destruct cells; [simpl in Hcells; lia|done].
    + split; [done|]. split; [done|]. destruct Hrd as [v Hv]. exists v.
      eapply read_word_kept; [|exact Hv].
      apply chars_kept_store. intros buf. by rewrite Ha1.
Qed.

Lemma C6_get_word_bounds_witness :
  udpipe_sentence_get_word (Some example_sentence) 2 (Ptr 3%positive)
    (example_heap []) = Some (0, example_heap [])
  ∧ ∃ h' w src,
      udpipe_sentence_get_word (Some example_sentence) 0 (Ptr 3%positive)
        (example_heap []) = Some (1, h')
      ∧ udpipe.words example_sentence !! 0%nat = Some src
      ∧ load_cell (Ptr 3%positive) 0 h' = Some w
      ∧ id w = udpipe.id src ∧ head w = udpipe.head src
      ∧ is_Some (read_word w h').
Proof.
  split.
  - apply (C6_get_word_bounds example_sentence 2 (Ptr 3%positive) (example_heap [])).
    simpl. lia.
  - apply (C6_get_word_bounds example_sentence 0 (Ptr 3%positive) (example_heap [])).
    + simpl. lia.
    + exists 3%positive, [None]. split; [reflexivity|].
      split; [vm_compute; reflexivity|simpl; lia].
Defined.

(** ** udpipe_process_text *)

Lemma process_text_stages m t res error_msg h :
  udpipe_process_text (Some m) (Some t) (Ptr res) error_msg h
  = match stages m t with
    | Parsed s => extract_results s t res error_msg h
    | Failed msg => fail_with error_msg msg h
    | Thrown e => handler error_msg e h
    end.
Proof.
  unfold udpipe_process_text, stages.
  destruct (udpipe.new_tokenizer _ _) as [[tokenizer|]|]; try done.
  destruct (udpipe.next_sentence _ _) as [[[[] ?] ?]|]; try done.
  destruct (udpipe.tag _ _ _ _) as [[[[] ?] ?]|]; try done.
  destruct (udpipe.parse _ _ _ _) as [[[[] ?] ?]|]; done.
Qed.

(** Every call ends in one failing path, with its message, or goes on to
    extract the results of a parsed sentence. *)
Lemma process_text_cases model_ptr input result error_msg h :
  (∃ msg,
     udpipe_process_text model_ptr input result error_msg h
     = fail_with error_msg msg h
     ∧ (from_c_str msg = EmptyString → empty_description model_ptr input))
  ∨ (∃ m t res s,
       model_ptr = Some m ∧ input = Some t ∧ result = Ptr res
       ∧ stages m t = Parsed s
       ∧ udpipe_process_text model_ptr input result error_msg h
         = extract_results s t res error_msg h).
Proof.
  destruct model_ptr as [m|];
    [|left; by exists "Invalid parameters"].
  destruct input as [t|];
    [|left; by exists "Invalid parameters"].
  destruct result as [|res];
    [left; by exists "Invalid parameters"|].
  rewrite process_text_stages.
  destruct (stages m t) as [s|msg|[what|]] eqn:Hst.
  - right. by exists m, t, res, s.
  - left. exists msg. split; [done|]. intros Hmsg. exists m, t, msg. auto.
  - left. exists what. split; [done|]. intros Hmsg. exists m, t, what. auto.
  - left. by exists "Unknown error occurred".
Qed.

Lemma all_granted_malloc_succeeds h : all_granted h → malloc_succeeds h.
Proof.
  unfold all_granted, malloc_succeeds. destruct (oracle h) as [|[] o]; try done.
  intros Hall. by apply Forall_cons_1 in Hall as [? _].
Qed.

(** ** Reading an array of words *)

Lemma mapM_seq_is_Some {A} (f : nat → option A) n start :
  (∀ i, (i < n)%nat → is_Some (f (start + i)%nat)) →
  is_Some (mapM f (seq start n)).
Proof.
  revert start. induction n as [|n IH]; intros start Hf; simpl; [by eexists|].
  destruct (Hf 0%nat ltac:(lia)) as [v Hv]. rewrite Nat.add_0_r in Hv.
  rewrite Hv. simpl.
  destruct (IH (S start)) as [vs Hvs].
  { intros i Hi. replace (S start + i)%nat with (start + S i)%nat by lia.
    apply Hf. lia. }
  rewrite Hvs. by eexists.
Qed.

Lemma mapM_seq_fmap {A B} (f : nat → option B) (g : A → B) (l : list A) start :
  (∀ i x, l !! i = Some x → f (start + i)%nat = Some (g x)) →
  mapM f (seq start (length l)) = Some (g <$> l).
Proof.
  revert start. induction l as [|x l IH]; intros start Hf; simpl; [done|].
  pose proof (Hf 0%nat x eq_refl) as Hx. rewrite Nat.add_0_r in Hx.
  rewrite Hx. simpl. rewrite (IH (S start)); [done|].
  intros i y Hy. replace (S start + i)%nat with (start + S i)%nat by lia.
  by apply Hf.
Qed.

(** ** The conversion loop *)

Section conversion.

(** The sentence converted, the address of the array the loop fills, and
    the condition under which the copies are known to be complete. *)
Variables (s : udpipe.sentence) (arr : addr) (G : Prop).

(** What the cells of the array at [arr] hold for the words of [s]:
    a record that reads back, and reads as the word itself when [G]. *)
Lemma extract_loop_spec k :
  ∀ start h cells,
    (start + k = length (udpipe.words s))%nat →
    mem h !! arr = Some (BWords cells) →
    length cells = length (udpipe.words s) →
    (G → all_granted h) →
    (∀ i src, (i < start)%nat → udpipe.words s !! i = Some src →
       ∃ w v, cells !! i = Some (Some w) ∧ read_word w h = Some v
              ∧ (G → v = word_value_of src)) →
    ∃ h' cells',
      for_loop start k (extract_word s (Ptr arr)) h = Some h'
      ∧ mem h' !! arr = Some (BWords cells')
      ∧ length cells' = length (udpipe.words s)
      ∧ kept {[arr]} h h'
      ∧ chars_kept h h'
      ∧ (G → all_granted h')
      ∧ (∀ i src, udpipe.words s !! i = Some src →
           ∃ w v, cells' !! i = Some (Some w) ∧ read_word w h' = Some v
                  ∧ (G → v = word_value_of src)).
Proof.
  induction k as [|k IH]; intros start h cells Hn Harr Hlen HG Hdone.
  { exists h, cells. simpl. split; [done|]. split; [done|]. split; [done|].
    split; [auto with frame|]. split; [auto with frame|].
    split; [done|]. intros i src Hsrc. apply Hdone; [|done].
    apply lookup_lt_Some in Hsrc. lia. }
  assert (start < length (udpipe.words s))%nat as Hlt by lia.
  destruct (lookup_lt_is_Some_2 _ _ Hlt) as [src0 Hsrc0].
  destruct (copy_texts_spec src0 h)
    as (ps & cw & h1 & Hdup & Hrec & _ & _ & Hsub & [v0 Hv0] & Hg0).
  pose proof (lookup_weaken _ _ _ _ Harr Hsub) as Harr1.
  assert (start < length cells)%nat as Hcell by lia.
  set (cells2 := <[start := Some cw]> cells).
  set (h2 := store arr (BWords cells2) h1).
  assert (chars_kept h h2) as Hk2.
  { apply (chars_kept_trans h h1 h2); [auto with frame|].
    apply chars_kept_store. intros buf. by rewrite Harr1. }
  destruct (IH (S start) h2 cells2) as (h' & cells' & Hrun & Harr' & Hlen' & Hkept & Hck & HG' & Hall).
  - lia.
  - simpl. apply lookup_insert_eq.
  - unfold cells2. by rewrite length_insert.
  - intros HG0. simpl. apply Hg0. by apply HG.
  - intros i src Hi Hsrc. destruct (decide (i = start)) as [->|Hne].
    + assert (src = src0) as -> by congruence.
      exists cw, v0. split; [unfold cells2; by apply list_lookup_insert_eq|].
      split.
      * eapply read_word_kept; [|exact Hv0].
        apply chars_kept_store. intros buf. by rewrite Harr1.
      * intros HG0. destruct (Hg0 (HG HG0)) as [_ Hv]. congruence.
    + destruct (Hdone i src ltac:(lia) Hsrc) as (w & v & Hw & Hv & Hval).
      exists w, v. split; [unfold cells2; by rewrite list_lookup_insert_ne|].
      split; [by eapply read_word_kept|done].
  - exists h', cells'. split.
    + simpl. rewrite extract_word_eq, Hsrc0. step.
      rewrite Hdup. step. rewrite Hrec. step.
      rewrite (store_cell_spec _ _ _ _ _ Harr1 Hcell). exact Hrun.
    + split; [done|]. split; [done|]. split.
      * eapply kept_trans; [by apply subseteq_kept|].
        eapply kept_trans; [|exact Hkept]. apply kept_store. set_solver.
      * split; [by eapply chars_kept_trans|]. split; [done|]. done.
Qed.

Lemma read_words_cells cells h :
  mem h !! arr = Some (BWords cells) →
  (∀ i src, udpipe.words s !! i = Some src →
     ∃ w v, cells !! i = Some (Some w) ∧ read_word w h = Some v
            ∧ (G → v = word_value_of src)) →
  ∃ ws, read_words (Ptr arr) (length (udpipe.words s)) h = Some ws
        ∧ (G → ws = word_value_of <$> udpipe.words s).
Proof.
  intros Harr Hcells. unfold read_words.
  destruct (mapM_seq_is_Some
              (λ i, w ← load_cell (Ptr arr) i h; read_word w h)
              (length (udpipe.words s)) 0) as [ws Hws].
  { intros i Hi. destruct (lookup_lt_is_Some_2 _ _ Hi) as [src Hsrc].
    destruct (Hcells i src Hsrc) as (w & v & Hw & Hv & _).
    simpl. rewrite Harr, Hw. simpl. by rewrite Hv. }
  exists ws. split; [done|]. intros HG.
  rewrite (mapM_seq_fmap _ word_value_of) in Hws; [congruence|].
  intros i src Hsrc. destruct (Hcells i src Hsrc) as (w & v & Hw & Hv & Hval).
  simpl. rewrite Harr, Hw. simpl. rewrite Hv. by rewrite (Hval HG).
Qed.

End conversion.

(** ** Extracting the results *)

Lemma assign_spec res f h r :
  load_sentence res h = Some r →
  assign res f h = Some (store res (BSentence (f r)) h).
Proof. intros Hr. unfold assign. by rewrite Hr. Qed.

Lemma load_sentence_store res r h : load_sentence res (store res (BSentence r) h) = Some r.
Proof. unfold load_sentence. simpl. by rewrite lookup_insert_eq. Qed.

Lemma load_sentence_lookup res h r :
  load_sentence res h = Some r ↔ mem h !! res = Some (BSentence r).
Proof.
  unfold load_sentence. destruct (mem h !! res) as [[| | |]|]; naive_solver.
Qed.

Lemma valid_error_msg_kept E error_msg h h' :
  valid_error_msg error_msg h → kept E h h' →
  (∀ e, error_msg = Ptr e → e ∉ E) →
  valid_error_msg error_msg h'.
Proof.
  destruct error_msg as [|e]; simpl; [done|].
  intros [p Hp] Hk HE. exists p. eapply Hk; [|done]. by apply HE.
Qed.

Lemma extract_results_spec s t res error_msg h r :
  load_sentence res h = Some r →
  valid_error_msg error_msg h →
  ∃ ret h', extract_results s t res error_msg h = Some (ret, h')
    ∧ (ret = 1
       ∧ (length (udpipe.words s) = 0%nat ∨ malloc_succeeds h)
       ∧ kept {[res]} h h'
       ∧ (words r = nullptr → sentence_invariant res h')
       ∧ (∃ ws tx,
            read_sentence res h' = Some (length (udpipe.words s), ws, tx)
            ∧ (all_granted h →
                 ws = word_value_of <$> udpipe.words s
                 ∧ tx = transferred (from_c_str t)))
       ∨ ret = 0
         ∧ (0 < length (udpipe.words s))%nat ∧ ¬ malloc_succeeds h
         ∧ ∃ h2, mem h2 = <[res := BSentence {| words := nullptr;
                                               word_count := length (udpipe.words s);
                                               text := text r |}]> (mem h)
                 ∧ failure_reported error_msg "Memory allocation failed" h2 h').
Proof.
  intros Hr Hv. unfold extract_results.
  rewrite (assign_spec _ _ _ _ Hr). step.
  set (n := length (udpipe.words s)).
  set (h0 := store res (BSentence (set_word_count n r)) h).
  assert (load_sentence res h0 = Some (set_word_count n r)) as Hr0
    by apply load_sentence_store.
  assert (kept {[res]} h h0) as Hk0 by (apply kept_store; set_solver).
  assert (∀ e, error_msg = Ptr e → e ∉ ({[res]} : gset addr)) as Hne.
  { intros e -> ->%elem_of_singleton. destruct Hv as [p Hp].
    apply load_sentence_lookup in Hr. congruence. }
  destruct (decide (0 < n)%nat) as [Hpos|Hzero].
  - pose proof (malloc_spec (BWords (replicate n None)) h0) as Hm.
    destruct (malloc _ h0) as [[|arr] h1].
    + (* the array is refused *)
      destruct Hm as [Hmem Ho].
      assert (load_sentence res h1 = Some (set_word_count n r)) as Hr1.
      { apply load_sentence_lookup. rewrite Hmem. by apply load_sentence_lookup. }
      rewrite (assign_spec _ _ _ _ Hr1). step.
      set (h2 := store res (BSentence (set_words nullptr (set_word_count n r))) h1).
      destruct (set_error_spec error_msg "Memory allocation failed" h2)
        as (h' & Hset & Hrep).
      { eapply (valid_error_msg_kept {[res]}); [exact Hv| |exact Hne].
        intros a b Ha Hb. simpl. rewrite lookup_insert_ne by set_solver.
        rewrite Hmem. by apply Hk0. }
      rewrite Hset. step.
      exists 0, h'. split; [done|]. right. split; [done|]. split; [done|].
      split.
      { unfold malloc_succeeds. simpl. simpl in Ho. rewrite Ho. tauto. }
      exists h2. split; [|exact Hrep].
      simpl. rewrite Hmem. simpl. by rewrite insert_insert_eq.
    + (* the array is granted *)
      destruct Hm as (Hfresh & Hmem & Hok & Ho).
      assert (arr ≠ res) as Harr_res.
      { intros ->. apply load_sentence_lookup in Hr0. congruence. }
      assert (load_sentence res h1 = Some (set_word_count n r)) as Hr1.
      { apply load_sentence_lookup. rewrite Hmem, lookup_insert_ne by done.
        by apply load_sentence_lookup. }
      rewrite (assign_spec _ _ _ _ Hr1). step.
      set (r2 := set_words (Ptr arr) (set_word_count n r)).
      set (h2 := store res (BSentence r2) h1).
      destruct (extract_loop_spec s arr (all_granted h) n 0 h2 (replicate n None))
        as (h3 & cells & Hloop & Harr3 & Hlen3 & Hk3 & Hck3 & Hg3 & Hcells).
      { done. }
      { simpl. rewrite lookup_insert_ne by done. rewrite Hmem.
        apply lookup_insert_eq. }
      { apply length_replicate. }
      { unfold all_granted. simpl. rewrite Ho. simpl.
        destruct (oracle h); [done|]. intros Hall.
        by apply Forall_cons_1 in Hall as [_ ?]. }
      { intros i src Hi. lia. }
      rewrite Hloop. step.
      destruct (duplicate_string_spec (from_c_str t) h3) as (copy & h4 & Hdup & Hd).
      rewrite Hdup. step.
      pose proof (duplicated_subseteq _ _ _ _ Hd) as Hsub4.
      assert (load_sentence res h3 = Some r2) as Hr3.
      { apply load_sentence_lookup. apply Hk3; [set_solver|].
        simpl. apply lookup_insert_eq. }
      assert (load_sentence res h4 = Some r2) as Hr4.
      { apply load_sentence_lookup. eapply lookup_weaken; [|exact Hsub4].
        by apply load_sentence_lookup. }
      rewrite (assign_spec _ _ _ _ Hr4). step.
      set (h5 := store res (BSentence (set_text copy r2)) h4).
      assert (load_sentence res h5 = Some (set_text copy r2)) as Hr5
        by apply load_sentence_store.
      assert (chars_kept h3 h5) as Hck5.
      { eapply chars_kept_trans; [by apply subseteq_chars_kept|].
        apply chars_kept_store. intros buf. apply load_sentence_lookup in Hr4.
        by rewrite Hr4. }
      exists 1, h5. split; [done|]. left. split; [done|].
      split; [by right|]. split.
      { intros a b Ha Hb. assert (a ≠ res) as Har by set_solver.
        assert (a ≠ arr) as Haa.
        { intros ->. simpl in Hfresh. rewrite lookup_insert_ne in Hfresh by done.
          congruence. }
        simpl. rewrite lookup_insert_ne by done.
        eapply lookup_weaken; [|exact Hsub4]. apply Hk3; [set_solver|].
        simpl. rewrite lookup_insert_ne by done. rewrite Hmem.
        rewrite lookup_insert_ne by done. simpl.
        by rewrite lookup_insert_ne. }
      assert (mem h5 !! arr = Some (BWords cells)) as Harr5.
      { simpl. rewrite lookup_insert_ne by done. by eapply lookup_weaken. }
      split.
      { intros _. exists (set_text copy r2). split; [done|]. simpl.
        split; [done|]. by exists cells. }
      destruct (read_words_cells s arr (all_granted h) cells h5)
        as (ws & Hws & Hval).
      { done. }
      { intros i src Hsrc. destruct (Hcells i src Hsrc) as (w & v & Hw & Hrd & Hx).
        exists w, v. split; [done|]. split; [|done]. by eapply read_word_kept. }
      destruct (duplicated_readable _ _ _ _ Hd) as [tx Htx].
      exists ws, tx. unfold read_sentence. rewrite Hr5.
      step. simpl. fold n.
      change (length (udpipe.words s)) with n in Hws. rewrite Hws.
      step.
      rewrite (read_string_kept copy h4 h5 tx); cycle 1.
      { apply chars_kept_store. intros buf. apply load_sentence_lookup in Hr4.
        by rewrite Hr4. }
      { done. }
      split; [done|]. intros Hall. split; [by apply Hval|].
      destruct (duplicated_granted _ _ _ _ Hd (Hg3 Hall)) as [_ Htx'].
      congruence.
  - (* no word *)
    assert (n = 0)%nat as Hn0 by lia.
    destruct (duplicate_string_spec (from_c_str t) h0) as (copy & h4 & Hdup & Hd).
    step. rewrite Hdup. step.
    pose proof (duplicated_subseteq _ _ _ _ Hd) as Hsub4.
    assert (load_sentence res h4 = Some (set_word_count n r)) as Hr4.
    { apply load_sentence_lookup. eapply lookup_weaken; [|exact Hsub4].
      by apply load_sentence_lookup. }
    rewrite (assign_spec _ _ _ _ Hr4). step.
    set (h5 := store res (BSentence (set_text copy (set_word_count n r))) h4).
    assert (load_sentence res h5 = Some (set_text copy (set_word_count n r))) as Hr5
      by apply load_sentence_store.
    exists 1, h5. split; [done|]. left. split; [done|].
    split; [by left|]. split.
    { eapply kept_trans; [exact Hk0|].
      eapply kept_trans; [by apply subseteq_kept|]. apply kept_store. set_solver. }
    split.
    { intros Hnull. exists (set_text copy (set_word_count n r)).
      split; [done|]. simpl. by rewrite Hnull. }
    destruct (duplicated_readable _ _ _ _ Hd) as [tx Htx].
    exists [], tx. unfold read_sentence. rewrite Hr5.
    step. simpl. fold n. rewrite Hn0. simpl.
    rewrite (read_string_kept copy h4 h5 tx); cycle 1.
    { apply chars_kept_store. intros buf. apply load_sentence_lookup in Hr4.
      by rewrite Hr4. }
    { done. }
    simpl. split; [done|]. intros Hall.
    assert (udpipe.words s = []) as -> by (apply length_zero_iff_nil; done).
    split; [done|].
    destruct (duplicated_granted _ _ _ _ Hd Hall) as [_ Htx'].
    congruence.
Qed.

(** ** The outcome of udpipe_process_text *)

Lemma error_written_delivered e msg h0 h h' :
  (∀ a, mem h !! a = None → mem h0 !! a = None) →
  error_written e msg h h' →
  ∃ p, error_delivered e h0 h' p
       ∧ (p = nullptr → msg = EmptyString ∨ ¬ malloc_succeeds h).
Proof.
  intros Hdom (p & He & _ & Hp). exists p. split; [split; [done|]|].
  - destruct p as [|a]; [done|].
    destruct Hp as (Hfresh & Hne & _ & buf & Hbuf & Hread).
    split; [by apply Hdom|]. by exists buf, msg.
  - intros ->. exact Hp.
Qed.

Lemma error_written_record e msg h h' res r :
  valid_error_msg (Ptr e) h →
  error_written e msg h h' →
  load_sentence res h = Some r → load_sentence res h' = Some r.
Proof.
  intros [p0 He0] (p & He & Hframe & Hp) Hr.
  apply load_sentence_lookup in Hr. apply load_sentence_lookup.
  rewrite Hframe; [done|congruence|].
  destruct p as [|a]; [done|]. destruct Hp as [Hfresh _]. congruence.
Qed.

Lemma fail_with_outcome model_ptr text result e msg h :
  valid_error_msg (Ptr e) h → valid_result result h →
  (from_c_str msg = EmptyString → empty_description model_ptr text) →
  ∃ h', fail_with (Ptr e) msg h = Some (0, h')
    ∧ gained_nothing result h h'
    ∧ ∃ p, error_delivered e h h' p
           ∧ (p = nullptr → ¬ all_granted h ∨ empty_description model_ptr text).
Proof.
  intros Hv Hres Hempty.
  destruct (fail_with_spec (Ptr e) msg h Hv) as (h' & Hrun & Hrep).
  simpl in Hrep. exists h'. split; [done|]. split.
  - destruct result as [|res]; simpl; [done|]. destruct Hres as [r Hr].
    exists r, r. split; [done|]. split; [|by auto].
    by eapply error_written_record.
  - destruct (error_written_delivered e _ h h h' ltac:(done) Hrep) as (p & Hd & Hp).
    exists p. split; [done|]. intros Hnull.
    destruct (Hp Hnull) as [Hmsg|Hrefused]; [right; by apply Hempty|left].
    intros Hall. by apply Hrefused, all_granted_malloc_succeeds.
Qed.

(** The outcome of a call in which every temporary is built, with valid
    pointers and a non-null [error_msg]: 1 with the record read back in
    full and the error variable as it was, or 0 with a record that gained
    nothing and the error variable assigned. *)
Lemma process_text_outcome (model_ptr : option udpipe.model) (input : option string)
    (result : ptr) (e : addr) (h : heap) :
  valid_error_msg (Ptr e) h → valid_result result h →
  ∃ ret h',
    udpipe_process_text model_ptr input result (Ptr e) h = Some (ret, h')
    ∧ (ret = 1
       ∧ mem h' !! e = mem h !! e
       ∧ (∃ m t res s ws tx,
            model_ptr = Some m ∧ input = Some t ∧ result = Ptr res
            ∧ stages m t = Parsed s
            ∧ read_sentence res h' = Some (length (udpipe.words s), ws, tx))
       ∨ ret = 0
         ∧ gained_nothing result h h'
         ∧ ∃ p, error_delivered e h h' p
                ∧ (p = nullptr →
                     ¬ all_granted h ∨ empty_description model_ptr input))
    ∧ (∀ m t, model_ptr = Some m → input = Some t →
         match stages m t with
         | Parsed _ => True
         | Failed _ | Thrown _ => ret = 0
         end).
Proof.
  intros Hv Hres.
  destruct (process_text_cases model_ptr input result (Ptr e) h)
    as [(msg & -> & Hempty)|(m & t & res & s & -> & -> & -> & Hst & ->)].
  - destruct (fail_with_outcome model_ptr input result e msg h Hv Hres Hempty)
      as (h' & Hrun & Hgain & Hdel).
    exists 0, h'. split; [done|]. split; [right; by split|].
    intros m t _ _. by destruct (stages m t).
  - destruct Hres as [r Hr].
    destruct (extract_results_spec s t res (Ptr e) h r Hr Hv)
      as (ret & h' & Hrun & [(-> & _ & Hkept & _ & ws & tx & Hread & _)
                            |(-> & Hpos & Hrefused & h2 & Hmem2 & Hrep)]).
    + exists 1, h'. split; [done|].
      split; [|intros ? ? [= <-] [= <-]; by rewrite Hst].
      left. split; [done|]. split.
      * destruct Hv as [p0 Hp0]. rewrite Hp0. apply Hkept; [|done].
        apply load_sentence_lookup in Hr. set_solver.
      * by exists m, t, res, s, ws, tx.
    + exists 0, h'. split; [done|].
      split; [|intros m' t' _ _; by destruct (stages m' t')].
      right. split; [done|]. simpl in Hrep.
      assert (valid_error_msg (Ptr e) h2) as Hv2.
      { destruct Hv as [p0 Hp0]. exists p0. rewrite Hmem2.
        rewrite lookup_insert_ne; [done|]. intros ->.
        apply load_sentence_lookup in Hr. congruence. }
      split.
      * exists r, {| words := nullptr; word_count := length (udpipe.words s);
                     text := text r |}.
        split; [done|]. split; [|split; [reflexivity|by right]].
        eapply error_written_record; [exact Hv2|exact Hrep|].
        apply load_sentence_lookup. rewrite Hmem2. apply lookup_insert_eq.
      * destruct (error_written_delivered e "Memory allocation failed" h h2 h')
          as (p & Hd & Hp); [|exact Hrep|].
        { intros a. rewrite Hmem2. intros Ha.
          destruct (decide (a = res)) as [->|Hne].
          - by rewrite lookup_insert_eq in Ha.
          - by rewrite lookup_insert_ne in Ha. }
        exists p. split; [done|]. intros _. left. intros Hall.
        by apply Hrefused, all_granted_malloc_succeeds.
Qed.

(** C7, as stated, fails, every temporary built.  A failing call with a
    null [error_msg] returns 0 and leaves the heap as it was: the record
    still empty and no description anywhere.  With a non-null [error_msg]
    and every request granted, a [std::exception] whose [what()] is empty
    gives 0 with the error variable null and the record still empty. *)
Lemma C7_counterexample :
  (udpipe_process_text None (Some "The cat") (Ptr 1%positive) nullptr
     (example_heap []) = Some (0, example_heap [])
   ∧ read_sentence 1%positive (example_heap []) = Some (0%nat, [], None))
  ∧ (∃ h',
       udpipe_process_text (Some silent_throwing_model) (Some "The cat")
         (Ptr 1%positive) (Ptr 2%positive) (example_heap []) = Some (0, h')
       ∧ mem h' !! 2%positive = Some (BCharPtr nullptr)
       ∧ read_sentence 1%positive h' = Some (0%nat, [], None)).
Proof.
  split; [split; vm_compute; reflexivity|].
  eexists. split; [vm_compute; reflexivity|]. split; vm_compute; reflexivity.
Qed.

(** ** The invariant of the record *)

Lemma create_invariant h a h' :
  udpipe_sentence_create h = (Ptr a, h') → sentence_invariant a h'.
Proof.
  intros Hc. unfold udpipe_sentence_create in Hc.
  pose proof (malloc_spec (BSentence {| words := nullptr; word_count := 0;
                                        text := nullptr |}) h) as Hm.
  rewrite Hc in Hm. simpl in Hm. destruct Hm as (_ & Hmem & _).
  exists zeroed. split; [|reflexivity].
  apply load_sentence_lookup. rewrite Hmem. apply lookup_insert_eq.
Qed.

Lemma failure_reported_record error_msg msg h h' res r :
  valid_error_msg error_msg h →
  failure_reported error_msg msg h h' →
  load_sentence res h = Some r → load_sentence res h' = Some r.
Proof.
  destruct error_msg as [|e]; simpl; [by intros _ ->|].
  apply error_written_record.
Qed.

(** On a record that is empty before the call the invariant holds after
    every call but one: the call that is refused the word array. *)
Lemma process_text_invariant model_ptr input res error_msg h r :
  load_sentence res h = Some r → words r = nullptr → word_count r = 0%nat →
  valid_error_msg error_msg h →
  ∃ ret h',
    udpipe_process_text model_ptr input (Ptr res) error_msg h = Some (ret, h')
    ∧ (sentence_invariant res h'
       ∨ ret = 0 ∧ ¬ malloc_succeeds h
         ∧ ∃ m t s, model_ptr = Some m ∧ input = Some t ∧ stages m t = Parsed s
             ∧ (0 < length (udpipe.words s))%nat
             ∧ load_sentence res h'
               = Some {| words := nullptr;
                         word_count := length (udpipe.words s);
                         text := text r |}).
Proof.
  intros Hr Hwords Hcount Hv.
  destruct (process_text_cases model_ptr input (Ptr res) error_msg h)
    as [(msg & -> & _)|(m & t & res' & s & -> & -> & [= <-] & Hst & ->)].
  - destruct (fail_with_spec error_msg msg h Hv) as (h' & Hrun & Hrep).
    exists 0, h'. split; [done|]. left. exists r. split.
    + by eapply failure_reported_record.
    + by rewrite Hwords.
  - destruct (extract_results_spec s t res error_msg h r Hr Hv)
      as (ret & h' & Hrun & [(-> & _ & _ & Hinv & _)
                            |(-> & Hpos & Hrefused & h2 & Hmem2 & Hrep)]).
    + exists 1, h'. split; [done|]. left. by apply Hinv.
    + exists 0, h'. split; [done|]. right. split; [done|]. split; [done|].
      exists m, t, s. split; [done|]. split; [done|]. split; [done|].
      split; [done|].
      eapply (failure_reported_record error_msg _ h2); [|exact Hrep|].
      * eapply (valid_error_msg_kept {[res]}); [exact Hv| |].
        -- intros a b Ha Hb. rewrite Hmem2. rewrite lookup_insert_ne; [done|].
           set_solver.
        -- intros e -> ->%elem_of_singleton. destruct Hv as [p Hp].
           apply load_sentence_lookup in Hr. congruence.
      * apply load_sentence_lookup. rewrite Hmem2. apply lookup_insert_eq.
Qed.

(** C2, at a failing input.  The record at address 1 is zeroed and
    satisfies the invariant.  The word array is refused: the call returns
    0 and leaves [word_count = 2] beside a null [words], the invariant
    broken, and [udpipe_sentence_destroy] on that record dereferences the
    null array. *)
Theorem C2_refused_array_breaks_invariant :
  ∃ h' r,
    sentence_invariant 1%positive (example_heap (refuse_after 0))
    ∧ udpipe_process_text (Some example_model) (Some "The cat") (Ptr 1%positive)
        (Ptr 2%positive) (example_heap (refuse_after 0)) = Some (0, h')
    ∧ load_sentence 1%positive h' = Some r
    ∧ word_count r = 2%nat
    ∧ words r = nullptr
    ∧ ¬ sentence_invariant 1%positive h'
    ∧ udpipe_sentence_destroy (Ptr 1%positive) h' = None.
Proof.
  eexists _, _. split.
  { exists zeroed. split; vm_compute; reflexivity. }
  split; [vm_compute; reflexivity|]. split; [vm_compute; reflexivity|].
  split; [vm_compute; reflexivity|]. split; [vm_compute; reflexivity|].
  split; [|vm_compute; reflexivity].
  intros (r & Hr & Hinv). vm_compute in Hr. injection Hr as <-.
  simpl in Hinv. discriminate.
Qed.

(** ** When every request is granted *)

Lemma process_text_granted m t res error_msg h s :
  stages m t = Parsed s →
  is_Some (load_sentence res h) → valid_error_msg error_msg h → all_granted h →
  ∃ h',
    udpipe_process_text (Some m) (Some t) (Ptr res) error_msg h = Some (1, h')
    ∧ kept {[res]} h h'
    ∧ read_sentence res h'
      = Some (length (udpipe.words s), word_value_of <$> udpipe.words s,
              transferred (from_c_str t)).
Proof.
  intros Hst [r Hr] Hv Hall. rewrite process_text_stages, Hst.
  destruct (extract_results_spec s t res error_msg h r Hr Hv)
    as (ret & h' & Hrun & [(-> & _ & Hkept & _ & ws & tx & Hread & Hval)
                          |(_ & _ & Hrefused & _)]).
  - exists h'. split; [done|]. split; [done|].
    destruct (Hval Hall) as [-> ->]. done.
  - exfalso. by apply Hrefused, all_granted_malloc_succeeds.
Qed.

Lemma get_word_granted s index word h src :
  udpipe.words s !! index = Some src → valid_word word h → all_granted h →
  ∃ h' w,
    udpipe_sentence_get_word (Some s) index word h = Some (1, h')
    ∧ load_cell word 0 h' = Some w
    ∧ read_word w h' = Some (word_value_of src).
Proof.
  intros Hsrc (a & cells & -> & Ha & Hcells) Hall. rewrite get_word_eq.
  pose proof (lookup_lt_Some _ _ _ Hsrc) as Hlt.
  destruct (decide _) as [Hge|_]; [lia|]. rewrite Hsrc.
  destruct (copy_texts_spec src h)
    as (ps & cw & h1 & Hdup & Hrec & _ & _ & Hsub & _ & Hg).
  destruct (Hg Hall) as [_ Hread].
  pose proof (lookup_weaken _ _ _ _ Ha Hsub) as Ha1.
  step. rewrite Hdup. step.
  rewrite Hrec. step.
  rewrite (store_cell_spec _ _ _ _ _ Ha1 Hcells). step.
  eexists _, cw. split; [done|]. split.
  - unfold load_cell. simpl. rewrite lookup_insert_eq.
    destruct cells; [simpl in Hcells; lia|done].
  - eapply read_word_kept; [|exact Hread].
    apply chars_kept_store. intros buf. by rewrite Ha1.
Qed.

(** With every request granted the record a call produces depends on the
    model and the text only, and its i-th word reads as what
    [udpipe_sentence_get_word] copies out of the parsed sentence at i. *)
Lemma granted_calls_agree m t s res1 res2 error_msg1 error_msg2 h1 h2 :
  stages m t = Parsed s →
  is_Some (load_sentence res1 h1) → valid_error_msg error_msg1 h1 → all_granted h1 →
  is_Some (load_sentence res2 h2) → valid_error_msg error_msg2 h2 → all_granted h2 →
  ∃ h1' h2',
    udpipe_process_text (Some m) (Some t) (Ptr res1) error_msg1 h1 = Some (1, h1')
    ∧ udpipe_process_text (Some m) (Some t) (Ptr res2) error_msg2 h2 = Some (1, h2')
    ∧ read_sentence res1 h1' = read_sentence res2 h2'.
Proof.
  intros Hst Hr1 Hv1 Hg1 Hr2 Hv2 Hg2.
  destruct (process_text_granted m t res1 error_msg1 h1 s Hst Hr1 Hv1 Hg1)
    as (h1' & Hrun1 & _ & Hread1).
  destruct (process_text_granted m t res2 error_msg2 h2 s Hst Hr2 Hv2 Hg2)
    as (h2' & Hrun2 & _ & Hread2).
  exists h1', h2'. split; [done|]. split; [done|]. congruence.
Qed.

Lemma granted_round_trip m t s res error_msg h index src word hw :
  stages m t = Parsed s →
  is_Some (load_sentence res h) → valid_error_msg error_msg h → all_granted h →
  udpipe.words s !! index = Some src → valid_word word hw → all_granted hw →
  ∃ h' ws tx hw' w v,
    udpipe_process_text (Some m) (Some t) (Ptr res) error_msg h = Some (1, h')
    ∧ read_sentence res h' = Some (length (udpipe.words s), ws, tx)
    ∧ udpipe_sentence_get_word (Some s) index word hw = Some (1, hw')
    ∧ load_cell word 0 hw' = Some w
    ∧ read_word w hw' = Some v
    ∧ ws !! index = Some v.
Proof.
  intros Hst Hr Hv Hg Hsrc Hw Hgw.
  destruct (process_text_granted m t res error_msg h s Hst Hr Hv Hg)
    as (h' & Hrun & _ & Hread).
  destruct (get_word_granted s index word hw src Hsrc Hw Hgw)
    as (hw' & w & Hget & Hcell & Hval).
  eexists h', _, _, hw', w, _. split; [done|]. split; [done|].
  split; [done|]. split; [done|]. split; [done|].
  by rewrite list_lookup_fmap, Hsrc.
Qed.

(** ** When a request is refused *)

(** C1, at a failing input.  The word array is granted and the copy of the
    first word's [form] is refused: the call returns 1, the record is
    installed with that [form] null although the word's form is "The", and
    no error is reported.  The same when only the copy of the text is
    refused: the call returns 1 with a null [text]. *)
Theorem C1_refused_copy_returns_success :
  (∃ h' r w,
     udpipe_process_text (Some example_model) (Some "The cat") (Ptr 1%positive)
       (Ptr 2%positive) (example_heap (refuse_after 1)) = Some (1, h')
     ∧ load_sentence 1%positive h' = Some r
     ∧ word_count r = 2%nat
     ∧ load_cell (words r) 0 h' = Some w
     ∧ form w = nullptr
     ∧ udpipe.form example_The = "The"
     ∧ mem h' !! 2%positive = Some (BCharPtr nullptr))
  ∧ (∃ h' r,
       udpipe_process_text (Some example_model) (Some "The cat") (Ptr 1%positive)
         (Ptr 2%positive) (example_heap (refuse_after 9)) = Some (1, h')
       ∧ load_sentence 1%positive h' = Some r
       ∧ text r = nullptr
       ∧ mem h' !! 2%positive = Some (BCharPtr nullptr)).
Proof.
  split.
  - eexists _, _, _. split; [vm_compute; reflexivity|].
    split; [vm_compute; reflexivity|]. repeat split; vm_compute; reflexivity.
  - eexists _, _. split; [vm_compute; reflexivity|].
    split; [vm_compute; reflexivity|]. repeat split; vm_compute; reflexivity.
Qed.

(** C8, at a failing input.  [udpipe_process_text] converts the sentence
    "The cat" with every request granted; [udpipe_sentence_get_word] at
    index 0 of the same sentence, the copy of [form] refused, returns 1
    with a record whose [form] is null: not the first word of the
    SentenceRecord, whose [form] reads "The". *)
Theorem C8_refused_copy_breaks_round_trip :
  ∃ h' ws tx v0 hw w v,
    stages example_model "The cat" = Parsed example_sentence
    ∧ udpipe_process_text (Some example_model) (Some "The cat") (Ptr 1%positive)
        (Ptr 2%positive) (example_heap []) = Some (1, h')
    ∧ read_sentence 1%positive h' = Some (2%nat, ws, tx)
    ∧ ws !! 0%nat = Some v0
    ∧ udpipe_sentence_get_word (Some example_sentence) 0 (Ptr 3%positive)
        (example_heap (refuse_after 0)) = Some (1, hw)
    ∧ load_cell (Ptr 3%positive) 0 hw = Some w
    ∧ read_word w hw = Some v
    ∧ v0.2 !! 0%nat = Some (Some "The")
    ∧ v.2 !! 0%nat = Some None
    ∧ v0 ≠ v.
Proof.
  eexists _, _, _, _, _, _, _. split; [vm_compute; reflexivity|].
  split; [vm_compute; reflexivity|]. split; [vm_compute; reflexivity|].
  split; [vm_compute; reflexivity|]. split; [vm_compute; reflexivity|].
  split; [vm_compute; reflexivity|]. split; [vm_compute; reflexivity|].
  split; [vm_compute; reflexivity|]. split; [vm_compute; reflexivity|].
  vm_compute. discriminate.
Qed.

(** C9, at a failing input.  Two calls in a row on the same model and the
    same text, into the records at addresses 1 and 4: every request of the
    first call is granted, the second call is refused the copy of the first
    [form].  Both return 1 and the two records differ. *)
Theorem C9_refused_copy_breaks_determinism :
  ∃ h1 h2 v1 v2,
    udpipe_process_text (Some example_model) (Some "The cat") (Ptr 1%positive)
      (Ptr 2%positive) (example_heap (refuse_after 11)) = Some (1, h1)
    ∧ udpipe_process_text (Some example_model) (Some "The cat") (Ptr 4%positive)
        (Ptr 2%positive) h1 = Some (1, h2)
    ∧ read_sentence 1%positive h2 = Some v1
    ∧ read_sentence 4%positive h2 = Some v2
    ∧ v1 ≠ v2.
Proof.
  eexists _, _, _, _. split; [vm_compute; reflexivity|].
  split; [vm_compute; reflexivity|]. split; [vm_compute; reflexivity|].
  split; [vm_compute; reflexivity|]. vm_compute. discriminate.
Qed.

(** * Ownership and release *)

(** [step] inside a hypothesis. *)
Ltac step_in H := cbn [mbind option_bind] in H.

(** ** Lists of pointers *)

Lemma addrs_of_app ps qs : addrs_of (ps ++ qs) = addrs_of ps ++ addrs_of qs.
Proof.
  induction ps as [|[|a] ps IH]; simpl; [done|done|]. by rewrite IH.
Qed.

Lemma elem_of_addrs_of a ps : a ∈ addrs_of ps ↔ Ptr a ∈ ps.
Proof.
  induction ps as [|[|a'] ps IH]; simpl.
  - by rewrite !elem_of_nil.
  - rewrite elem_of_cons, IH. split; [by right|]. by intros [?|?].
  - rewrite !elem_of_cons, IH. split.
    + intros [->|?]; [by left|by right].
    + intros [[= ->]|?]; [by left|by right].
Qed.

Lemma released_refl h : released [] h h.
Proof. split; [done|]. intros a. by rewrite decide_False by apply not_elem_of_nil. Qed.

Lemma released_app X Y h1 h2 h3 :
  released X h1 h2 → released Y h2 h3 → released (X ++ Y) h1 h3.
Proof.
  intros [Ho1 H1] [Ho2 H2]. split; [congruence|]. intros a.
  rewrite H2, H1.
  destruct (decide (a ∈ Y)) as [HY|HY], (decide (a ∈ X)) as [HX|HX],
    (decide (a ∈ X ++ Y)) as [HXY|HXY]; try done;
    exfalso; rewrite elem_of_app in HXY; tauto.
Qed.

(** Pointers to distinct live blocks can each be released once. *)
Lemma free_strings_spec ps h :
  NoDup (addrs_of ps) →
  (∀ a, a ∈ addrs_of ps → is_Some (mem h !! a)) →
  ∃ h', free_strings ps h = Some h' ∧ released (addrs_of ps) h h'.
Proof.
  revert h. induction ps as [|[|a] ps IH]; intros h Hnd Hlive; simpl.
  - exists h. split; [done|]. apply released_refl.
  - by apply IH.
  - apply NoDup_cons in Hnd as [Hnotin Hnd].
    destruct (Hlive a) as [b Hb]; [set_solver|].
    unfold udpipe_free_string. simpl. rewrite Hb. step.
    set (h1 := {| mem := delete a (mem h); oracle := oracle h |}).
    destruct (IH h1 Hnd) as (h' & Hrun & Hrel).
    { intros a' Ha'. simpl. rewrite lookup_delete_ne by set_solver.
      apply Hlive. set_solver. }
    exists h'. split; [done|].
    apply (released_app [a] (addrs_of ps) h h1 h'); [|done].
    split; [done|]. intros x. simpl. case_decide as Hx.
    + apply list_elem_of_singleton in Hx as ->. apply lookup_delete_eq.
    + apply lookup_delete_ne. set_solver.
Qed.

(** ** The blocks the copies of a word's texts add *)

Lemma duplicate_strings_footprint strs :
  ∀ h ps h', duplicate_strings strs h = Some (ps, h') →
    NoDup (addrs_of ps)
    ∧ (∀ a, a ∈ addrs_of ps → mem h !! a = None ∧ is_Some (mem h' !! a))
    ∧ (∀ a, a ∉ addrs_of ps → mem h' !! a = mem h !! a).
Proof.
  induction strs as [|str strs IH]; intros h ps h' Hrun; simpl in Hrun.
  { injection Hrun as <- <-. simpl. split; [constructor|]. split; [|done].
    intros a Ha. by apply elem_of_nil in Ha. }
  destruct (duplicate_string_spec str h) as (p & h1 & Hp & Hdup).
  rewrite Hp in Hrun. simpl in Hrun.
  destruct (duplicate_strings strs h1) as [[ps' h2]|] eqn:Hrest; [|done].
  simpl in Hrun. injection Hrun as <- <-.
  destruct (IH h1 ps' h2 Hrest) as (Hnd & Hnew & Hframe).
  destruct p as [|a]; simpl in Hdup |- *.
  - destruct Hdup as [Hmem _]. rewrite <- Hmem. done.
  - destruct Hdup as (_ & _ & _ & Hfresh & buf & Hmem & _).
    assert (a ∉ addrs_of ps') as Ha.
    { intros Hin. destruct (Hnew a Hin) as [Hnone _].
      by rewrite Hmem, lookup_insert_eq in Hnone. }
    split; [by constructor|]. split.
    + intros x [->|Hx]%elem_of_cons.
      * split; [done|]. rewrite (Hframe a Ha), Hmem, lookup_insert_eq. by eexists.
      * destruct (Hnew x Hx) as [Hnone Hsome]. split; [|done].
        rewrite Hmem in Hnone. destruct (decide (x = a)) as [->|Hne]; [done|].
        by rewrite lookup_insert_ne in Hnone.
    + intros x Hx. apply not_elem_of_cons in Hx as [Hne Hx].
      rewrite (Hframe x Hx), Hmem. by rewrite lookup_insert_ne.
Qed.

Lemma word_record_fields w ps cw :
  word_record w ps = Some cw → string_fields cw = ps.
Proof.
  unfold word_record. do 9 (destruct ps as [|? ps]; try done).
  by intros [= <-].
Qed.

(** ** The blocks the conversion loop adds *)

Section footprint.

(** The sentence converted, the array the loop fills and the heap the loop
    starts from, in which the array is live. *)
Variables (s : udpipe.sentence) (arr : addr) (h0 : heap).
Hypothesis array_live : is_Some (mem h0 !! arr).

Lemma extract_loop_footprint k :
  ∀ ws h,
    (length ws + k = length (udpipe.words s))%nat →
    mem h !! arr = Some (BWords ((Some <$> ws) ++ replicate k None)) →
    NoDup (addrs_of (ws ≫= string_fields)) →
    (∀ a, a ∈ addrs_of (ws ≫= string_fields) →
       mem h0 !! a = None ∧ is_Some (mem h !! a)) →
    (∀ a, a ∉ addrs_of (ws ≫= string_fields) → a ≠ arr →
       mem h !! a = mem h0 !! a) →
    ∃ h' ws',
      for_loop (length ws) k (extract_word s (Ptr arr)) h = Some h'
      ∧ length ws' = length (udpipe.words s)
      ∧ mem h' !! arr = Some (BWords (Some <$> ws'))
      ∧ NoDup (addrs_of (ws' ≫= string_fields))
      ∧ (∀ a, a ∈ addrs_of (ws' ≫= string_fields) →
           mem h0 !! a = None ∧ is_Some (mem h' !! a))
      ∧ (∀ a, a ∉ addrs_of (ws' ≫= string_fields) → a ≠ arr →
           mem h' !! a = mem h0 !! a).
Proof.
  induction k as [|k IH]; intros ws h Hn Harr Hnd Hnew Hframe.
  { exists h, ws. simpl in *. rewrite app_nil_r in Harr.
    split; [done|]. split; [lia|]. split; [done|]. done. }
  assert (length ws < length (udpipe.words s))%nat as Hlt by lia.
  destruct (lookup_lt_is_Some_2 _ _ Hlt) as [src Hsrc].
  destruct (copy_texts_spec src h)
    as (ps & cw & h1 & Hdup & Hrec & _ & _ & _ & _ & _).
  destruct (duplicate_strings_footprint _ _ _ _ Hdup) as (Hnd1 & Hnew1 & Hframe1).
  pose proof (word_record_fields _ _ _ Hrec) as Hfields.
  assert (arr ∉ addrs_of ps) as Harr_ps.
  { intros Hin. destruct (Hnew1 arr Hin) as [Hnone _]. by rewrite Harr in Hnone. }
  assert (mem h1 !! arr = Some (BWords ((Some <$> ws) ++ replicate (S k) None)))
    as Harr1 by (by rewrite (Hframe1 arr Harr_ps)).
  set (cells2 := (Some <$> (ws ++ [cw])) ++ replicate k None).
  assert (<[length ws := Some cw]> ((Some <$> ws) ++ replicate (S k) None) = cells2)
    as Hcells2.
  { unfold cells2. rewrite insert_app_r_alt by (rewrite length_fmap; lia).
    rewrite length_fmap, Nat.sub_diag. simpl.
    by rewrite fmap_app, <- app_assoc. }
  set (h2 := store arr (BWords cells2) h1).
  assert (addrs_of ((ws ++ [cw]) ≫= string_fields)
          = addrs_of (ws ≫= string_fields) ++ addrs_of ps) as Howned.
  { rewrite bind_app, addrs_of_app. f_equal.
    change ([cw] ≫= string_fields) with (string_fields cw ++ []).
    by rewrite app_nil_r, Hfields. }
  destruct (IH (ws ++ [cw]) h2) as (h' & ws' & Hrun & Hlen & Harr' & Hnd' & Hnew' & Hframe').
  - rewrite length_app. simpl. lia.
  - simpl. apply lookup_insert_eq.
  - rewrite Howned. apply NoDup_app. split; [done|]. split; [|done].
    intros a Ha Hin. destruct (Hnew a Ha) as [_ [b Hb]].
    destruct (Hnew1 a Hin) as [Hnone _]. congruence.
  - intros a. rewrite Howned, elem_of_app. intros [Ha|Ha].
    + destruct (Hnew a Ha) as [Hnone [b Hb]]. split; [done|].
      assert (a ≠ arr) as Hne by (intros ->; destruct array_live; congruence).
      assert (a ∉ addrs_of ps) as Hps.
      { intros Hin. destruct (Hnew1 a Hin) as [Hnone1 _]. congruence. }
      simpl. rewrite lookup_insert_ne by done. rewrite (Hframe1 a Hps). by eexists.
    + destruct (Hnew1 a Ha) as [Hnone Hsome].
      assert (a ≠ arr) as Hne by (intros ->; congruence).
      assert (a ∉ addrs_of (ws ≫= string_fields)) as Hws.
      { intros Hin. destruct (Hnew a Hin) as [_ [b Hb]]. congruence. }
      split; [by rewrite <- (Hframe a Hws Hne)|].
      simpl. by rewrite lookup_insert_ne.
  - intros a. rewrite Howned, elem_of_app. intros Hnot Hne.
    simpl. rewrite lookup_insert_ne by done.
    rewrite Hframe1 by tauto. apply Hframe; tauto.
  - exists h', ws'. split.
    + simpl. rewrite extract_word_eq, Hsrc. step. rewrite Hdup. step.
      rewrite Hrec. step.
      rewrite (store_cell_spec arr _ _ cw h1 Harr1)
        by (rewrite length_app, length_fmap, length_replicate; lia).
      step. rewrite Hcells2. fold h2.
      rewrite length_app in Hrun. simpl in Hrun. by rewrite Nat.add_1_r in Hrun.
    + split; [done|]. split; [done|]. done.
Qed.

End footprint.

(** ** What a successful extraction leaves *)

Lemma duplicated_pointwise str h p h' :
  duplicated str h p h' →
  NoDup (addrs_of [p])
  ∧ (∀ a, a ∈ addrs_of [p] → mem h !! a = None ∧ is_Some (mem h' !! a))
  ∧ (∀ a, a ∉ addrs_of [p] → mem h' !! a = mem h !! a).
Proof.
  destruct p as [|c]; simpl.
  - intros [-> _]. split; [constructor|]. split; [|done].
    intros a Ha. by apply elem_of_nil in Ha.
  - intros (_ & _ & _ & Hfresh & buf & -> & _).
    split; [apply NoDup_singleton|]. split.
    + intros a ->%list_elem_of_singleton. split; [done|].
      rewrite lookup_insert_eq. by eexists.
    + intros a Ha. apply lookup_insert_ne. intros ->. apply Ha.
      by apply list_elem_of_singleton.
Qed.

Lemma extract_results_footprint s t res error_msg h r h' :
  load_sentence res h = Some r → words r = nullptr →
  extract_results s t res error_msg h = Some (1, h') →
  ∃ r' ws, populated_from h res h' r' ws
           ∧ length ws = length (udpipe.words s).
Proof.
  intros Hr Hwords Hrun. unfold extract_results in Hrun.
  rewrite (assign_spec _ _ _ _ Hr) in Hrun. step_in Hrun.
  set (n := length (udpipe.words s)) in *.
  set (h0 := store res (BSentence (set_word_count n r)) h) in *.
  apply load_sentence_lookup in Hr.
  assert (∀ a, a ≠ res → mem h0 !! a = mem h !! a) as E0
    by (intros a Ha; simpl; by rewrite lookup_insert_ne).
  assert (mem h0 !! res = Some (BSentence (set_word_count n r))) as Hr0
    by apply lookup_insert_eq.
  destruct (decide (0 < n)%nat) as [Hpos|Hzero].
  - pose proof (malloc_spec (BWords (replicate n None)) h0) as Hm.
    destruct (malloc _ h0) as [[|arr] h1].
    { (* refused: the call returns 0 *)
      destruct Hm as [Hmem _].
      assert (load_sentence res h1 = Some (set_word_count n r)) as Hr1
        by (apply load_sentence_lookup; by rewrite Hmem).
      rewrite (assign_spec _ _ _ _ Hr1) in Hrun. step_in Hrun.
      destruct (set_error _ _ _); simpl in Hrun; discriminate. }
    destruct Hm as (Hfresh & Hmem & _ & _).
    assert (arr ≠ res) as Harr_res by (intros ->; congruence).
    assert (load_sentence res h1 = Some (set_word_count n r)) as Hr1.
    { apply load_sentence_lookup. by rewrite Hmem, lookup_insert_ne. }
    rewrite (assign_spec _ _ _ _ Hr1) in Hrun. step_in Hrun.
    set (r2 := set_words (Ptr arr) (set_word_count n r)) in *.
    set (h2 := store res (BSentence r2) h1) in *.
    assert (mem h2 !! arr = Some (BWords (replicate n None))) as Harr2.
    { simpl. rewrite lookup_insert_ne by done. rewrite Hmem. apply lookup_insert_eq. }
    assert (mem h2 !! res = Some (BSentence r2)) as Hr2 by apply lookup_insert_eq.
    assert (∀ a, a ≠ res → a ≠ arr → mem h2 !! a = mem h !! a) as E2.
    { intros a Har Haa. simpl. rewrite lookup_insert_ne by done.
      rewrite Hmem, lookup_insert_ne by done. by apply E0. }
    assert (mem h !! arr = None) as Harr_h by (by rewrite <- E0).
    destruct (extract_loop_footprint s arr h2 ltac:(by eexists) n [] h2)
      as (h3 & ws & Hloop & Hlen & Harr3 & Hnd & Hnew & Hframe).
    { done. }
    { done. }
    { constructor. }
    { intros a Ha. by apply elem_of_nil in Ha. }
    { done. }
    simpl in Hloop. rewrite Hloop in Hrun. step_in Hrun.
    destruct (duplicate_string_spec (from_c_str t) h3) as (copy & h4 & Hdup & Hd).
    rewrite Hdup in Hrun. step_in Hrun.
    destruct (duplicated_pointwise _ _ _ _ Hd) as (Hndc & Hnewc & Hframec).
    set (F := addrs_of (ws ≫= string_fields)) in *.
    assert (res ∉ F) as Hres_F.
    { intros Hin. destruct (Hnew res Hin) as [Hnone _]. congruence. }
    assert (arr ∉ F) as Harr_F.
    { intros Hin. destruct (Hnew arr Hin) as [Hnone _]. congruence. }
    assert (mem h3 !! res = Some (BSentence r2)) as Hr3
      by (by rewrite Hframe).
    assert (res ∉ addrs_of [copy]) as Hres_c.
    { intros Hin. destruct (Hnewc res Hin) as [Hnone _]. congruence. }
    assert (arr ∉ addrs_of [copy]) as Harr_c.
    { intros Hin. destruct (Hnewc arr Hin) as [Hnone _]. congruence. }
    assert (load_sentence res h4 = Some r2) as Hr4.
    { apply load_sentence_lookup. by rewrite Hframec. }
    rewrite (assign_spec _ _ _ _ Hr4) in Hrun. step_in Hrun.
    injection Hrun as <-.
    set (r5 := set_text copy r2).
    exists r5, ws. split; [|done].
    assert (addrs_of (owned_pointers r5 ws) = F ++ arr :: addrs_of [copy]) as HO.
    { unfold owned_pointers. rewrite addrs_of_app. done. }
    split; [apply load_sentence_store|]. split; [by rewrite Hlen|].
    split.
    { simpl. rewrite lookup_insert_ne by done. by rewrite Hframec. }
    rewrite HO. split; [|split].
    + apply NoDup_app. split; [done|]. split.
      * intros a Ha [->|Hc]%elem_of_cons; [done|].
        destruct (Hnew a Ha) as [_ [b Hb]]. destruct (Hnewc a Hc) as [Hnone _].
        congruence.
      * by apply NoDup_cons.
    + intros a. rewrite elem_of_app, elem_of_cons. intros [Ha|[->|Ha]].
      * destruct (Hnew a Ha) as [Hnone [b Hb]].
        assert (a ≠ res) by (intros ->; congruence).
        assert (a ≠ arr) by (intros ->; congruence).
        split; [by rewrite <- E2|].
        simpl. rewrite lookup_insert_ne by done. rewrite Hframec; [by eexists|].
        intros Hc. destruct (Hnewc a Hc) as [Hnone' _]. congruence.
      * split; [done|]. simpl. rewrite lookup_insert_ne by done.
        rewrite Hframec by done. by eexists.
      * destruct (Hnewc a Ha) as [Hnone Hsome].
        assert (a ≠ res) by (intros ->; congruence).
        assert (a ≠ arr) by (intros ->; congruence).
        assert (a ∉ F).
        { intros Hin. destruct (Hnew a Hin) as [_ [b Hb]]. congruence. }
        split; [by rewrite <- E2, <- Hframe|].
        simpl. by rewrite lookup_insert_ne.
    + intros a. rewrite elem_of_app, elem_of_cons. intros Hnot Hne.
      simpl. rewrite lookup_insert_ne by done.
      rewrite Hframec by tauto. rewrite Hframe by tauto. apply E2; tauto.
  - (* no word *)
    assert (n = 0)%nat as Hn0 by lia. step_in Hrun.
    destruct (duplicate_string_spec (from_c_str t) h0) as (copy & h4 & Hdup & Hd).
    rewrite Hdup in Hrun. step_in Hrun.
    destruct (duplicated_pointwise _ _ _ _ Hd) as (Hndc & Hnewc & Hframec).
    assert (res ∉ addrs_of [copy]) as Hres_c.
    { intros Hin. destruct (Hnewc res Hin) as [Hnone _]. congruence. }
    assert (load_sentence res h4 = Some (set_word_count n r)) as Hr4.
    { apply load_sentence_lookup. by rewrite Hframec. }
    rewrite (assign_spec _ _ _ _ Hr4) in Hrun. step_in Hrun.
    injection Hrun as <-.
    set (r5 := set_text copy (set_word_count n r)).
    exists r5, []. split; [|done].
    assert (addrs_of (owned_pointers r5 []) = addrs_of [copy]) as HO.
    { unfold owned_pointers. simpl. by rewrite Hwords. }
    split; [apply load_sentence_store|]. split; [done|].
    split; [simpl; by rewrite Hwords|].
    rewrite HO. split; [done|]. split.
    + intros a Ha. destruct (Hnewc a Ha) as [Hnone Hsome].
      assert (a ≠ res) by (intros ->; congruence).
      split; [by rewrite <- E0|]. simpl. by rewrite lookup_insert_ne.
    + intros a Ha Hne. simpl. rewrite lookup_insert_ne by done.
      rewrite Hframec by done. by apply E0.
Qed.

(** ** udpipe_sentence_destroy on a record that owns what it points to *)

Lemma destroy_word_eq r i h :
  destroy_word r i h
  = (word ← load_cell (words r) i h; free_strings (string_fields word) h).
Proof.
  unfold destroy_word. destruct (load_cell _ _ _) as [word|]; [|done].
  simpl. unfold udpipe_free_string.
  repeat (destruct (free _ _) as [?|]; simpl; [|done]). done.
Qed.

Lemma destroy_loop_spec r arr h' ws2 :
  ∀ ws1 g,
    words r = Ptr arr →
    mem h' !! arr = Some (BWords (Some <$> (ws1 ++ ws2))) →
    NoDup (addrs_of ((ws1 ++ ws2) ≫= string_fields)) →
    arr ∉ addrs_of ((ws1 ++ ws2) ≫= string_fields) →
    (∀ a, a ∈ addrs_of ((ws1 ++ ws2) ≫= string_fields) → is_Some (mem h' !! a)) →
    released (addrs_of (ws1 ≫= string_fields)) h' g →
    ∃ g', for_loop (length ws1) (length ws2) (destroy_word r) g = Some g'
          ∧ released (addrs_of ((ws1 ++ ws2) ≫= string_fields)) h' g'.
Proof.
  induction ws2 as [|w ws2 IH]; intros ws1 g Hwords Harr Hnd Harr_out Hlive Hrel.
  { exists g. rewrite app_nil_r. done. }
  assert ((ws1 ++ w :: ws2) = (ws1 ++ [w]) ++ ws2) as Hsplit
    by (by rewrite <- app_assoc).
  assert (addrs_of ((ws1 ++ w :: ws2) ≫= string_fields)
          = addrs_of (ws1 ≫= string_fields)
            ++ addrs_of (string_fields w)
            ++ addrs_of (ws2 ≫= string_fields)) as Hall.
  { rewrite bind_app, bind_cons, !addrs_of_app. done. }
  rewrite Hall in Hnd, Harr_out, Hlive.
  apply NoDup_app in Hnd as (Hnd1 & Hdisj1 & Hnd23).
  apply NoDup_app in Hnd23 as (Hnd2 & Hdisj2 & Hnd3).
  destruct Hrel as [Ho Hg].
  assert (mem g !! arr = Some (BWords (Some <$> (ws1 ++ w :: ws2)))) as Harr_g.
  { rewrite Hg. rewrite decide_False; [done|].
    intros Hin. apply Harr_out. rewrite elem_of_app. by left. }
  destruct (free_strings_spec (string_fields w) g Hnd2) as (g1 & Hfree & Hrel1).
  { intros a Ha. rewrite Hg. rewrite decide_False.
    - apply Hlive. rewrite !elem_of_app. right. by left.
    - intros Hin. apply (Hdisj1 a Hin). rewrite elem_of_app. by left. }
  destruct (IH (ws1 ++ [w]) g1) as (g' & Hrun & Hrel').
  - done.
  - by rewrite <- Hsplit.
  - rewrite <- Hsplit, Hall. apply NoDup_app. split; [done|]. split; [done|].
    by apply NoDup_app.
  - by rewrite <- Hsplit, Hall.
  - by rewrite <- Hsplit, Hall.
  - rewrite bind_app, addrs_of_app.
    change ([w] ≫= string_fields) with (string_fields w ++ []).
    rewrite app_nil_r. by apply (released_app _ _ h' g g1).
  - exists g'. split; [|by rewrite Hsplit].
    simpl. rewrite destroy_word_eq, Hwords. unfold load_cell.
    rewrite Harr_g, list_lookup_fmap, list_lookup_middle by done.
    change (mjoin (Some <$> Some w)) with (Some w). step. rewrite Hfree. step.
    rewrite length_app in Hrun. simpl in Hrun. by rewrite Nat.add_1_r in Hrun.
Qed.

(** A record that owns what it points to is released whole: every block it
    acquired and the record itself, each once. *)
Lemma destroy_populated h res h' r ws :
  is_Some (mem h !! res) →
  populated_from h res h' r ws →
  ∃ h'', udpipe_sentence_destroy (Ptr res) h' = Some h''
         ∧ mem h'' = delete res (mem h)
         ∧ oracle h'' = oracle h'.
Proof.
  intros [b0 Hres] (Hr & Hcount & Hshape & Hnd & Hnew & Hframe).
  unfold owned_pointers in Hnd, Hnew, Hframe.
  rewrite addrs_of_app in Hnd, Hnew, Hframe.
  set (F := addrs_of (ws ≫= string_fields)) in *.
  set (T := addrs_of [words r; text r]) in *.
  apply NoDup_app in Hnd as (HndF & Hdisj & HndT).
  assert (res ∉ F ++ T) as Hres_out.
  { intros Hin. destruct (Hnew res Hin) as [Hnone _]. congruence. }
  (* the loop *)
  assert (∃ g, for_loop 0 (word_count r) (destroy_word r) h' = Some g
               ∧ released F h' g) as (g & Hloop & Hrel).
  { destruct (words r) as [|arr] eqn:Hwords.
    - subst ws. simpl in Hcount. rewrite Hcount. exists h'. split; [done|].
      apply released_refl.
    - rewrite Hcount.
      apply (destroy_loop_spec r arr h' ws [] h').
      + exact Hwords.
      + exact Hshape.
      + exact HndF.
      + intros Hin. apply (Hdisj arr Hin). unfold T. simpl.
        apply elem_of_cons. by left.
      + intros a Ha. apply Hnew. apply elem_of_app. by left.
      + apply released_refl. }
  (* the array and the text *)
  destruct (free_strings_spec [words r; text r] g HndT) as (g1 & Hfree & Hrel1).
  { intros a Ha. destruct Hrel as [_ Hg]. rewrite Hg, decide_False.
    - apply Hnew. rewrite elem_of_app. by right.
    - intros Hin. by apply (Hdisj a Hin). }
  pose proof (released_app _ _ _ _ _ Hrel Hrel1) as [Ho Hall].
  assert (mem g1 !! res = Some (BSentence r)) as Hres1.
  { rewrite Hall, decide_False by done. by apply load_sentence_lookup. }
  exists {| mem := delete res (mem g1); oracle := oracle g1 |}. split.
  - unfold udpipe_sentence_destroy. rewrite Hr. step. rewrite Hloop. step.
    simpl in Hfree. unfold udpipe_free_string in Hfree.
    destruct (free (words r) g) as [g0|]; [|done]. step_in Hfree. step.
    destruct (free (text r) g0) as [g2|]; [|done]. step_in Hfree. step.
    injection Hfree as ->. simpl. by rewrite Hres1.
  - simpl. split; [|done]. apply map_eq. intros a.
    destruct (decide (a = res)) as [->|Hne].
    + by rewrite !lookup_delete_eq.
    + rewrite !lookup_delete_ne by done. rewrite Hall.
      case_decide as Hin.
      * symmetry. by apply Hnew.
      * by apply Hframe.
Qed.

(** ** The record a successful call hands over *)

Lemma fail_with_returns_0 error_msg msg h ret h' :
  fail_with error_msg msg h = Some (ret, h') → ret = 0.
Proof.
  unfold fail_with. destruct (set_error _ _ _); simpl; [|done]. by intros [= <- _].
Qed.

(** X1.  When [udpipe_process_text] returns 1 on a record whose [words]
    was null, the record holds as many words as the parsed sentence and
    owns all it points to: the array, the texts of the words and the text
    are distinct blocks that were not live before the call, and no block
    that was live before, the record apart, has changed. *)
Theorem process_text_ownership (model_ptr : option udpipe.model)
    (input : option string) (res : addr) (error_msg : ptr) (h h' : heap)
    (r : UDPipeSentence) :
  load_sentence res h = Some r → words r = nullptr →
  udpipe_process_text model_ptr input (Ptr res) error_msg h = Some (1, h') →
  ∃ m t s r' ws,
    model_ptr = Some m ∧ input = Some t ∧ stages m t = Parsed s
    ∧ length ws = length (udpipe.words s)
    ∧ populated_from h res h' r' ws.
Proof.
  intros Hr Hwords Hrun.
  destruct (process_text_cases model_ptr input (Ptr res) error_msg h)
    as [(msg & Heq & _)|(m & t & res' & s & -> & -> & [= <-] & Hst & Heq)];
    rewrite Heq in Hrun.
  - by apply fail_with_returns_0 in Hrun.
  - destruct (extract_results_footprint s t res error_msg h r h' Hr Hwords Hrun)
      as (r' & ws & Hpop & Hlen).
    by exists m, t, s, r', ws.
Qed.

Lemma process_text_ownership_witness :
  ∃ h' m t s r' ws,
    udpipe_process_text (Some example_model) (Some "The cat") (Ptr 1%positive)
      (Ptr 2%positive) (example_heap (refuse_after 1)) = Some (1, h')
    ∧ Some example_model = Some m ∧ Some "The cat" = Some t
    ∧ stages m t = Parsed s
    ∧ length ws = length (udpipe.words s)
    ∧ populated_from (example_heap (refuse_after 1)) 1%positive h' r' ws.
Proof.
  exists (from_option snd empty_heap
            (udpipe_process_text (Some example_model) (Some "The cat")
               (Ptr 1%positive) (Ptr 2%positive) (example_heap (refuse_after 1)))).
  assert (load_sentence 1%positive (example_heap (refuse_after 1)) = Some zeroed)
    as Hr by (vm_compute; reflexivity).
  assert (udpipe_process_text (Some example_model) (Some "The cat") (Ptr 1%positive)
            (Ptr 2%positive) (example_heap (refuse_after 1))
          = Some (1, from_option snd empty_heap
                       (udpipe_process_text (Some example_model) (Some "The cat")
                          (Ptr 1%positive) (Ptr 2%positive)
                          (example_heap (refuse_after 1))))) as Hrun
    by (vm_compute; reflexivity).
  destruct (process_text_ownership _ _ _ _ _ _ zeroed Hr eq_refl Hrun)
    as (m & t & s & r' & ws & Hm & Ht & Hst & Hlen & Hpop).
  exists m, t, s, r', ws. split; [exact Hrun|].
  split; [exact Hm|]. split; [exact Ht|]. split; [exact Hst|].
  split; [exact Hlen|exact Hpop].
Defined.

(** X2.  A record from [udpipe_sentence_create], populated by a call of
    [udpipe_process_text] that returned 1, is released whole by
    [udpipe_sentence_destroy]: the destruction runs without undefined
    behaviour and leaves the heap that was there before the creation -
    nothing is leaked and nothing is freed twice, also when copies of texts
    were refused during the call. *)
Theorem lifecycle_restores_heap (model_ptr : option udpipe.model)
    (input : option string) (error_msg : ptr) (h0 h1 h2 : heap) (res : addr) :
  udpipe_sentence_create h0 = (Ptr res, h1) →
  udpipe_process_text model_ptr input (Ptr res) error_msg h1 = Some (1, h2) →
  ∃ h3, udpipe_sentence_destroy (Ptr res) h2 = Some h3 ∧ mem h3 = mem h0.
Proof.
  intros Hc Hrun. unfold udpipe_sentence_create in Hc.
  pose proof (malloc_spec (BSentence {| words := nullptr; word_count := 0;
                                        text := nullptr |}) h0) as Hm.
  rewrite Hc in Hm. simpl in Hm. destruct Hm as (Hfresh & Hmem & _).
  assert (mem h1 !! res = Some (BSentence zeroed)) as Hres
    by (rewrite Hmem; apply lookup_insert_eq).
  destruct (process_text_ownership model_ptr input res error_msg h1 h2 zeroed)
    as (m & t & s & r' & ws & _ & _ & _ & _ & Hpop);
    [by apply load_sentence_lookup|done|done|].
  destruct (destroy_populated h1 res h2 r' ws) as (h3 & Hd & Hmem3 & _);
    [by eexists|done|].
  exists h3. split; [done|]. rewrite Hmem3, Hmem. by apply delete_insert_id.
Qed.

Lemma lifecycle_restores_heap_witness :
  ∃ h1 h2 h3,
    udpipe_sentence_create (example_heap (refuse_after 2)) = (Ptr 5%positive, h1)
    ∧ udpipe_process_text (Some example_model) (Some "The cat") (Ptr 5%positive)
        (Ptr 2%positive) h1 = Some (1, h2)
    ∧ udpipe_sentence_destroy (Ptr 5%positive) h2 = Some h3
    ∧ mem h3 = mem (example_heap (refuse_after 2)).
Proof.
  set (h1 := snd (udpipe_sentence_create (example_heap (refuse_after 2)))).
  set (h2 := from_option snd empty_heap
               (udpipe_process_text (Some example_model) (Some "The cat")
                  (Ptr 5%positive) (Ptr 2%positive) h1)).
  assert (udpipe_sentence_create (example_heap (refuse_after 2))
          = (Ptr 5%positive, h1)) as Hc by (vm_compute; reflexivity).
  assert (udpipe_process_text (Some example_model) (Some "The cat")
            (Ptr 5%positive) (Ptr 2%positive) h1 = Some (1, h2)) as Hrun
    by (vm_compute; reflexivity).
  destruct (lifecycle_restores_heap _ _ _ _ _ _ _ Hc Hrun) as (h3 & Hd & Hmem).
  exists h1, h2, h3. split; [exact Hc|]. split; [exact Hrun|].
  split; [exact Hd|exact Hmem].
Defined.

(** ** The description a failing call hands over *)

Lemma error_written_released e msg h h' :
  is_Some (mem h !! e) →
  error_written e msg h h' →
  ∃ p h'', mem h' !! e = Some (BCharPtr p)
           ∧ udpipe_free_string p h' = Some h''
           ∧ mem h'' = <[e := BCharPtr p]> (mem h).
Proof.
  intros [b0 He0] (p & He & Hframe & Hp). exists p.
  destruct p as [|c].
  - exists h'. split; [done|]. split; [done|]. apply map_eq. intros a.
    destruct (decide (a = e)) as [->|Hne].
    + by rewrite lookup_insert_eq.
    + rewrite lookup_insert_ne by done. by apply Hframe.
  - destruct Hp as (Hfresh & _ & _ & buf & Hbuf & _).
    assert (c ≠ e) as Hce by (intros ->; congruence).
    eexists. split; [done|]. unfold udpipe_free_string. simpl. rewrite Hbuf.
    split; [done|]. simpl. apply map_eq. intros a.
    destruct (decide (a = c)) as [->|Hac].
    + rewrite lookup_delete_eq, lookup_insert_ne by done. done.
    + rewrite lookup_delete_ne by done.
      destruct (decide (a = e)) as [->|Hne].
      * by rewrite lookup_insert_eq.
      * rewrite lookup_insert_ne by done. apply Hframe; congruence.
Qed.

(** After a call that returned 0, every temporary built, freeing the
    pointer left in the error variable gives back the blocks the heap held
    before the call. *)
Lemma failed_call_released (model_ptr : option udpipe.model)
    (input : option string) (result : ptr) (e : addr) (h h' : heap) :
  valid_error_msg (Ptr e) h → valid_result result h →
  udpipe_process_text model_ptr input result (Ptr e) h = Some (0, h') →
  ∃ p h'', mem h' !! e = Some (BCharPtr p)
           ∧ udpipe_free_string p h' = Some h''
           ∧ dom (mem h'') = dom (mem h)
           ∧ (∀ a, a ≠ e → Ptr a ≠ result → mem h'' !! a = mem h !! a).
Proof.
  intros Hv Hres Hrun. pose proof Hv as [p0 He0].
  destruct (process_text_cases model_ptr input result (Ptr e) h)
    as [(msg & Heq & _)|(m & t & res & s & -> & -> & -> & Hst & Heq)];
    rewrite Heq in Hrun.
  - destruct (fail_with_spec (Ptr e) msg h Hv) as (h1 & Hrun1 & Hrep).
    rewrite Hrun1 in Hrun. injection Hrun as <-. simpl in Hrep.
    destruct (error_written_released e _ h h1 ltac:(by eexists) Hrep)
      as (p & h'' & Hp & Hfree & Hmem).
    exists p, h''. split; [done|]. split; [done|]. rewrite Hmem. split.
    + apply dom_insert_lookup_L. by eexists.
    + intros a Hne _. by rewrite lookup_insert_ne.
  - destruct Hres as [r Hr].
    destruct (extract_results_spec s t res (Ptr e) h r Hr Hv)
      as (ret & h1 & Hrun1 & [(-> & _)|(-> & _ & _ & h2 & Hmem2 & Hrep)]);
      rewrite Hrun1 in Hrun; [done|]. injection Hrun as <-. simpl in Hrep.
    apply load_sentence_lookup in Hr.
    assert (e ≠ res) as Her by (intros ->; congruence).
    destruct (error_written_released e "Memory allocation failed" h2 h1)
      as (p & h'' & Hp & Hfree & Hmem); [|exact Hrep|].
    { rewrite Hmem2, lookup_insert_ne by done. by eexists. }
    exists p, h''. split; [done|]. split; [done|]. rewrite Hmem, Hmem2. split.
    + rewrite dom_insert_lookup_L
        by (rewrite lookup_insert_ne by done; by eexists).
      apply dom_insert_lookup_L. by eexists.
    + intros a Hne Har. rewrite !lookup_insert_ne; [done|congruence|done].
Qed.



(** ** The records udpipe_sentence_get_word hands over *)

Lemma get_word_in_range s index a cells h src :
  udpipe.words s !! index = Some src →
  mem h !! a = Some (BWords cells) → (0 < length cells)%nat →
  ∃ ps cw h1,
    duplicate_strings (texts_of src) h = Some (ps, h1)
    ∧ word_record src ps = Some cw
    ∧ mem h1 !! a = Some (BWords cells)
    ∧ udpipe_sentence_get_word (Some s) index (Ptr a) h
      = Some (1, store a (BWords (<[0%nat := Some cw]> cells)) h1).
Proof.
  intros Hsrc Ha Hcells. rewrite get_word_eq.
  pose proof (lookup_lt_Some _ _ _ Hsrc) as Hlt.
  destruct (decide _) as [Hge|_]; [lia|]. rewrite Hsrc.
  destruct (copy_texts_spec src h)
    as (ps & cw & h1 & Hdup & Hrec & _ & _ & Hsub & _ & _).
  pose proof (lookup_weaken _ _ _ _ Ha Hsub) as Ha1.
  exists ps, cw, h1. split; [done|]. split; [done|]. split; [done|].
  step. rewrite Hdup. step. rewrite Hrec. step.
  by rewrite (store_cell_spec _ _ _ _ _ Ha1 Hcells).
Qed.

(** X5.  [udpipe_sentence_get_word_count] gives the bound
    [udpipe_sentence_get_word] checks: with an output record to write to,
    the accessor returns 1 exactly for the indices below the count - for
    no index at all on a null sentence handle, whose count is 0 - and
    returns 0 otherwise, leaving the heap as it was. *)
Theorem get_word_count_bounds (sentence_ptr : option udpipe.sentence)
    (index : nat) (word : ptr) (h : heap) :
  valid_word word h →
  ∃ ret h',
    udpipe_sentence_get_word sentence_ptr index word h = Some (ret, h')
    ∧ (ret = 1 ↔ (index < udpipe_sentence_get_word_count sentence_ptr)%nat)
    ∧ (ret ≠ 1 → ret = 0 ∧ h' = h).
Proof.
  intros (a & cells & -> & Ha & Hcells).
  destruct sentence_ptr as [s|]; simpl.
  - destruct (decide (index < length (udpipe.words s))%nat) as [Hlt|Hge].
    + destruct (lookup_lt_is_Some_2 _ _ Hlt) as [src Hsrc].
      destruct (get_word_in_range s index a cells h src Hsrc Ha Hcells)
        as (ps & cw & h1 & _ & _ & _ & Hrun).
      eexists _, _. split; [exact Hrun|]. split; [done|]. done.
    + exists 0, h. split.
      * destruct (decide (length (udpipe.words s) ≤ index)%nat); [done|lia].
      * split; [|done]. split; [done|lia].
  - exists 0, h. split; [done|]. split; [|done]. split; [done|lia].
Qed.

Lemma get_word_count_bounds_witness :
  ∃ ret h',
    udpipe_sentence_get_word (Some example_sentence) 1 (Ptr 3%positive)
      (example_heap []) = Some (ret, h')
    ∧ (ret = 1
       ↔ (1 < udpipe_sentence_get_word_count (Some example_sentence))%nat).
Proof.
  destruct (get_word_count_bounds (Some example_sentence) 1 (Ptr 3%positive)
              (example_heap [])) as (ret & h' & Hrun & Hiff & _).
  - exists 3%positive, [None]. split; [reflexivity|].
    split; [vm_compute; reflexivity|simpl; lia].
  - exists ret, h'. split; [exact Hrun|exact Hiff].
Defined.

(** X6.  The texts of a record [udpipe_sentence_get_word] wrote are the
    caller's own: its non-null text pointers are distinct blocks that were
    not live before the call - so no two calls hand out the same buffer -
    and [udpipe_free_string] on each of them, once, runs without undefined
    behaviour and leaves the heap as it was before the call but for the
    record written. *)
Theorem get_word_ownership (s : udpipe.sentence) (index : nat) (a : addr)
    (cells : list (option UDPipeWord)) (h : heap) :
  (index < length (udpipe.words s))%nat →
  mem h !! a = Some (BWords cells) → (0 < length cells)%nat →
  ∃ h' w h'',
    udpipe_sentence_get_word (Some s) index (Ptr a) h = Some (1, h')
    ∧ load_cell (Ptr a) 0 h' = Some w
    ∧ NoDup (addrs_of (string_fields w))
    ∧ (∀ x, x ∈ addrs_of (string_fields w) →
         mem h !! x = None ∧ is_Some (mem h' !! x))
    ∧ free_strings (string_fields w) h' = Some h''
    ∧ mem h'' = <[a := BWords (<[0%nat := Some w]> cells)]> (mem h).
Proof.
  intros Hlt Ha Hcells.
  destruct (lookup_lt_is_Some_2 _ _ Hlt) as [src Hsrc].
  destruct (get_word_in_range s index a cells h src Hsrc Ha Hcells)
    as (ps & cw & h1 & Hdup & Hrec & Ha1 & Hrun).
  destruct (duplicate_strings_footprint _ _ _ _ Hdup) as (Hnd & Hnew & Hframe).
  rewrite <- (word_record_fields _ _ _ Hrec) in Hnd, Hnew, Hframe.
  set (h' := store a (BWords (<[0%nat := Some cw]> cells)) h1) in *.
  assert (a ∉ addrs_of (string_fields cw)) as Ha_out.
  { intros Hin. destruct (Hnew a Hin) as [Hnone _]. congruence. }
  destruct (free_strings_spec (string_fields cw) h' Hnd) as (h'' & Hfree & [_ Hrel]).
  { intros x Hx. destruct (Hnew x Hx) as [_ Hsome]. simpl.
    rewrite lookup_insert_ne; [done|]. by intros ->. }
  exists h', cw, h''. split; [done|]. split.
  { unfold load_cell. simpl. rewrite lookup_insert_eq.
    destruct cells; [simpl in Hcells; lia|done]. }
  split; [done|]. split.
  { intros x Hx. destruct (Hnew x Hx) as [Hnone Hsome]. split; [done|].
    simpl. rewrite lookup_insert_ne; [done|]. by intros ->. }
  split; [done|]. apply map_eq. intros x. rewrite Hrel.
  case_decide as Hx.
  - destruct (Hnew x Hx) as [Hnone _].
    rewrite lookup_insert_ne; [done|]. by intros ->.
  - simpl. destruct (decide (x = a)) as [->|Hne].
    + by rewrite !lookup_insert_eq.
    + rewrite !lookup_insert_ne by done. by apply Hframe.
Qed.

Lemma get_word_ownership_witness :
  ∃ h' w h'',
    udpipe_sentence_get_word (Some example_sentence) 0 (Ptr 3%positive)
      (example_heap []) = Some (1, h')
    ∧ load_cell (Ptr 3%positive) 0 h' = Some w
    ∧ free_strings (string_fields w) h' = Some h''
    ∧ mem h'' = <[3%positive := BWords (<[0%nat := Some w]> [None])]>
                  (mem (example_heap [])).
Proof.
  destruct (get_word_ownership example_sentence 0 3%positive [None]
              (example_heap [])) as (h' & w & h'' & Hrun & Hw & _ & _ & Hfree & Hmem).
  - simpl. lia.
  - vm_compute. reflexivity.
  - simpl. lia.
  - exists h', w, h''. split; [exact Hrun|]. split; [exact Hw|].
    split; [exact Hfree|exact Hmem].
Defined.

(** ** What a call converts, and what it leaves alone *)

(** X7.  When the stages parse a sentence and every allocation is granted,
    [udpipe_process_text] returns 1 and the record reads back, by value, as
    that sentence with each text as [duplicate_string] transfers it: its
    count is the number of words; its i-th word has the [id] and the
    [head] of the i-th word and, for each of the eight texts, null when
    the text is empty and otherwise a buffer that reads as the text up to
    its first NUL - as the empty string when the text starts with a NUL;
    its text is null when the input the caller passed is empty, and
    otherwise reads as that input, not as a text of the tokenizer.  No
    other block that was live has changed. *)
Theorem process_text_converts (m : udpipe.model) (t : string)
    (s : udpipe.sentence) (res : addr) (error_msg : ptr) (h : heap) :
  stages m t = Parsed s →
  is_Some (load_sentence res h) → valid_error_msg error_msg h → all_granted h →
  ∃ h',
    udpipe_process_text (Some m) (Some t) (Ptr res) error_msg h = Some (1, h')
    ∧ read_sentence res h'
      = Some (length (udpipe.words s), word_value_of <$> udpipe.words s,
              transferred (from_c_str t))
    ∧ (∀ a b, a ≠ res → mem h !! a = Some b → mem h' !! a = Some b).
Proof.
  intros Hst Hr Hv Hall.
  destruct (process_text_granted m t res error_msg h s Hst Hr Hv Hall)
    as (h' & Hrun & Hkept & Hread).
  exists h'. split; [done|]. split; [done|].
  intros a b Hne Hb. apply Hkept; [|done]. by intros ->%elem_of_singleton.
Qed.

Lemma process_text_converts_witness :
  ∃ h',
    udpipe_process_text (Some example_model) (Some "The cat") (Ptr 1%positive)
      (Ptr 2%positive) (example_heap []) = Some (1, h')
    ∧ read_sentence 1%positive h'
      = Some (2%nat, [word_value_of example_The; word_value_of example_cat],
              Some "The cat").
Proof.
  destruct (process_text_converts example_model "The cat" example_sentence
              1%positive (Ptr 2%positive) (example_heap []))
    as (h' & Hrun & Hread & _).
  - vm_compute. reflexivity.
  - exists zeroed. vm_compute. reflexivity.
  - exists nullptr. vm_compute. reflexivity.
  - constructor.
  - exists h'. split; [exact Hrun|exact Hread].
Defined.

Lemma failure_reported_frame error_msg msg h h' :
  valid_error_msg error_msg h →
  failure_reported error_msg msg h h' →
  (∀ a b, mem h !! a = Some b → Ptr a ≠ error_msg → mem h' !! a = Some b)
  ∧ (∀ a, is_Some (mem h !! a) → is_Some (mem h' !! a)).
Proof.
  destruct error_msg as [|e]; simpl.
  - by intros _ ->.
  - intros [p0 He0] (p & He & Hframe & Hp).
    assert (∀ a b, mem h !! a = Some b → a ≠ e → mem h' !! a = Some b) as Hkeep.
    { intros a b Hb Hne. rewrite Hframe; [done|done|].
      destruct p as [|c]; [done|]. destruct Hp as [Hfresh _]. congruence. }
    split.
    + intros a b Hb Hne. apply Hkeep; [done|congruence].
    + intros a [b Hb]. destruct (decide (a = e)) as [->|Hne]; [by eexists|].
      exists b. by apply Hkeep.
Qed.

(** X8.  [udpipe_process_text] writes to the record and to the error
    variable and to nothing else that was live, and it frees nothing:
    whatever it returns, every block that was live before the call is live
    after it, and those other than the record and the error variable hold
    what they held. *)
Theorem process_text_frame (model_ptr : option udpipe.model)
    (input : option string) (result error_msg : ptr) (h : heap)
    (ret : Z) (h' : heap) :
  valid_error_msg error_msg h → valid_result result h →
  udpipe_process_text model_ptr input result error_msg h = Some (ret, h') →
  (∀ a b, mem h !! a = Some b → Ptr a ≠ result → Ptr a ≠ error_msg →
     mem h' !! a = Some b)
  ∧ dom (mem h) ⊆ dom (mem h').
Proof.
  intros Hv Hres Hrun.
  enough ((∀ a b, mem h !! a = Some b → Ptr a ≠ result → Ptr a ≠ error_msg →
             mem h' !! a = Some b)
          ∧ (∀ a, is_Some (mem h !! a) → is_Some (mem h' !! a))) as [Hkeep Hlive].
  { split; [done|]. intros a Ha. apply elem_of_dom. apply Hlive.
    by apply elem_of_dom. }
  destruct (process_text_cases model_ptr input result error_msg h)
    as [(msg & Heq & _)|(m & t & res & s & -> & -> & -> & Hst & Heq)];
    rewrite Heq in Hrun.
  - destruct (fail_with_spec error_msg msg h Hv) as (h1 & Hrun1 & Hrep).
    rewrite Hrun1 in Hrun. injection Hrun as <- <-.
    destruct (failure_reported_frame _ _ _ _ Hv Hrep) as [Hkeep Hlive].
    split; [|done]. intros a b Hb _ Hne. by apply Hkeep.
  - destruct Hres as [r Hr].
    destruct (extract_results_spec s t res error_msg h r Hr Hv)
      as (ret1 & h1 & Hrun1 & [(-> & _ & Hkept & _ & ws & tx & Hread & _)
                              |(-> & _ & _ & h2 & Hmem2 & Hrep)]);
      rewrite Hrun1 in Hrun; injection Hrun as <- <-.
    + split.
      * intros a b Hb Hne _. apply Hkept; [|done].
        intros ->%elem_of_singleton. done.
      * intros a [b Hb]. destruct (decide (a = res)) as [->|Hne].
        -- unfold read_sentence in Hread.
           destruct (load_sentence res h1) as [r1|] eqn:Hr1; [|done].
           apply load_sentence_lookup in Hr1. by eexists.
        -- exists b. apply Hkept; [|done]. by intros ->%elem_of_singleton.
    + apply load_sentence_lookup in Hr.
      assert (valid_error_msg error_msg h2) as Hv2.
      { destruct error_msg as [|e]; [done|]. destruct Hv as [p Hp]. exists p.
        rewrite Hmem2, lookup_insert_ne; [done|]. intros ->. congruence. }
      destruct (failure_reported_frame _ _ _ _ Hv2 Hrep) as [Hkeep Hlive].
      split.
      * intros a b Hb Hne Hne'. apply Hkeep; [|done].
        rewrite Hmem2, lookup_insert_ne; [done|]. congruence.
      * intros a [b Hb]. apply Hlive. rewrite Hmem2.
        destruct (decide (a = res)) as [->|Hne].
        -- rewrite lookup_insert_eq. by eexists.
        -- rewrite lookup_insert_ne by done. by eexists.
Qed.

Lemma process_text_frame_witness :
  ∃ ret h',
    udpipe_process_text (Some example_model) (Some "The cat") (Ptr 1%positive)
      (Ptr 2%positive) (example_heap (refuse_after 0)) = Some (ret, h')
    ∧ mem h' !! 4%positive = Some (BSentence zeroed)
    ∧ dom (mem (example_heap (refuse_after 0))) ⊆ dom (mem h').
Proof.
  set (run := udpipe_process_text (Some example_model) (Some "The cat")
                (Ptr 1%positive) (Ptr 2%positive) (example_heap (refuse_after 0))).
  assert (run = Some (from_option fst 0 run, from_option snd empty_heap run))
    as Hrun by (vm_compute; reflexivity).
  assert (valid_error_msg (Ptr 2%positive) (example_heap (refuse_after 0))) as Hv
    by (exists nullptr; vm_compute; reflexivity).
  assert (valid_result (Ptr 1%positive) (example_heap (refuse_after 0))) as Hres
    by (exists zeroed; vm_compute; reflexivity).
  destruct (process_text_frame _ _ _ _ _ _ _ Hv Hres Hrun) as [Hkeep Hdom].
  exists (from_option fst 0 run), (from_option snd empty_heap run).
  split; [exact Hrun|]. split; [|exact Hdom].
  apply Hkeep; [vm_compute; reflexivity|discriminate|discriminate].
Defined.

(** ** A refused copy *)

(** X9.  A refused allocation does not make [duplicate_string] fail
    loudly: for a non-empty text it returns null and adds no block, which
    is what it returns, the heap untouched, for the empty text - from the
    pointer alone a caller cannot tell a refused copy from an empty
    field. *)
Theorem duplicate_string_refused (str : string) (h : heap) :
  str ≠ EmptyString → ¬ malloc_succeeds h →
  duplicate_string EmptyString h = Some (nullptr, h)
  ∧ ∃ h', duplicate_string str h = Some (nullptr, h')
          ∧ mem h' = mem h ∧ oracle h = false :: oracle h'.
Proof.
  intros Hne Hrefused. split; [done|].
  destruct (duplicate_string_spec str h) as (p & h' & Hrun & Hdup).
  destruct p as [|a]; simpl in Hdup.
  - destruct Hdup as [Hmem [[? _]|[_ Ho]]]; [done|]. by exists h'.
  - by destruct Hdup as (_ & Hok & _).
Qed.

Lemma duplicate_string_refused_witness :
  ∃ h', duplicate_string "The" (example_heap (refuse_after 0)) = Some (nullptr, h')
        ∧ mem h' = mem (example_heap (refuse_after 0)).
Proof.
  destruct (duplicate_string_refused "The" (example_heap (refuse_after 0)))
    as [_ (h' & Hrun & Hmem & _)].
  - discriminate.
  - simpl. tauto.
  - exists h'. split; [exact Hrun|exact Hmem].
Defined.

(** ** The accessor against the record *)

(** X10.  With every allocation granted, the record
    [udpipe_process_text] fills and the accessor agree: for each index
    below the count, [udpipe_sentence_get_word] on the parsed sentence
    writes a record that reads, field for field, as the word at that index
    of the SentenceRecord. *)
Theorem round_trip_granted (m : udpipe.model) (t : string)
    (s : udpipe.sentence) (res : addr) (error_msg : ptr) (h : heap) :
  stages m t = Parsed s →
  is_Some (load_sentence res h) → valid_error_msg error_msg h → all_granted h →
  ∃ h' ws tx,
    udpipe_process_text (Some m) (Some t) (Ptr res) error_msg h = Some (1, h')
    ∧ read_sentence res h'
      = Some (udpipe_sentence_get_word_count (Some s), ws, tx)
    ∧ ∀ index word hw,
        (index < udpipe_sentence_get_word_count (Some s))%nat →
        valid_word word hw → all_granted hw →
        ∃ hw' w v,
          udpipe_sentence_get_word (Some s) index word hw = Some (1, hw')
          ∧ load_cell word 0 hw' = Some w
          ∧ read_word w hw' = Some v
          ∧ ws !! index = Some v.
Proof.
  intros Hst Hr Hv Hall.
  destruct (process_text_granted m t res error_msg h s Hst Hr Hv Hall)
    as (h' & Hrun & _ & Hread).
  eexists h', _, _. split; [done|]. split; [exact Hread|].
  intros index word hw Hlt Hw Hgw. simpl in Hlt.
  destruct (lookup_lt_is_Some_2 _ _ Hlt) as [src Hsrc].
  destruct (get_word_granted s index word hw src Hsrc Hw Hgw)
    as (hw' & w & Hget & Hcell & Hval).
  exists hw', w, (word_value_of src). split; [done|]. split; [done|].
  split; [done|]. by rewrite list_lookup_fmap, Hsrc.
Qed.

Lemma round_trip_granted_witness :
  ∃ h' ws tx hw' w v,
    udpipe_process_text (Some example_model) (Some "The cat") (Ptr 1%positive)
      (Ptr 2%positive) (example_heap []) = Some (1, h')
    ∧ read_sentence 1%positive h' = Some (2%nat, ws, tx)
    ∧ udpipe_sentence_get_word (Some example_sentence) 1 (Ptr 3%positive) h'
      = Some (1, hw')
    ∧ load_cell (Ptr 3%positive) 0 hw' = Some w
    ∧ read_word w hw' = Some v
    ∧ ws !! 1%nat = Some v.
Proof.
  destruct (round_trip_granted example_model "The cat" example_sentence
              1%positive (Ptr 2%positive) (example_heap []))
    as (h' & ws & tx & Hrun & Hread & Hget).
  - vm_compute. reflexivity.
  - exists zeroed. vm_compute. reflexivity.
  - exists nullptr. vm_compute. reflexivity.
  - constructor.
  - assert (h' = from_option snd empty_heap
                   (udpipe_process_text (Some example_model) (Some "The cat")
                      (Ptr 1%positive) (Ptr 2%positive) (example_heap [])))
      as Hh' by (rewrite Hrun; reflexivity).
    destruct (Hget 1%nat (Ptr 3%positive) h') as (hw' & w & v & Hg & Hw & Hv & Hi).
    + simpl. lia.
    + exists 3%positive, [None]. split; [reflexivity|].
      split; [rewrite Hh'; vm_compute; reflexivity|simpl; lia].
    + rewrite Hh'. vm_compute. constructor.
    + exists h', ws, tx, hw', w, v. split; [exact Hrun|].
      split; [exact Hread|]. split; [exact Hg|]. split; [exact Hw|].
      split; [exact Hv|exact Hi].
Defined.

(** X11.  The record keeps its invariant through its life but for one
    path: it holds on the record [udpipe_sentence_create] returns, and
    after a call of [udpipe_process_text] on an empty record it holds
    whenever the call returned 1 or its first allocation was granted -
    that is, on every path except the refusal of the word array. *)
Theorem invariant_kept (model_ptr : option udpipe.model) (input : option string)
    (res : addr) (error_msg : ptr) (h0 h : heap) :
  udpipe_sentence_create h0 = (Ptr res, h) →
  valid_error_msg error_msg h →
  sentence_invariant res h
  ∧ ∃ ret h',
      udpipe_process_text model_ptr input (Ptr res) error_msg h = Some (ret, h')
      ∧ (ret = 1 ∨ malloc_succeeds h → sentence_invariant res h').
Proof.
  intros Hc Hv. pose proof (create_invariant _ _ _ Hc) as Hinv.
  split; [done|]. destruct Hinv as (r & Hr & Hshape).
  assert (r = zeroed) as ->.
  { unfold udpipe_sentence_create in Hc.
    pose proof (malloc_spec (BSentence {| words := nullptr; word_count := 0;
                                          text := nullptr |}) h0) as Hm.
    rewrite Hc in Hm. simpl in Hm. destruct Hm as (_ & Hmem & _).
    apply load_sentence_lookup in Hr. rewrite Hmem, lookup_insert_eq in Hr.
    by injection Hr as <-. }
  destruct (process_text_invariant model_ptr input res error_msg h zeroed
              Hr eq_refl eq_refl Hv)
    as (ret & h' & Hrun & [Hok|(-> & Hrefused & _)]).
  - exists ret, h'. split; [done|]. done.
  - exists 0, h'. split; [done|]. intros [?|?]; [done|]. by destruct Hrefused.
Qed.

Lemma invariant_kept_witness :
  ∃ h ret h',
    udpipe_sentence_create (example_heap []) = (Ptr 5%positive, h)
    ∧ sentence_invariant 5%positive h
    ∧ udpipe_process_text (Some example_model) (Some "The cat") (Ptr 5%positive)
        (Ptr 2%positive) h = Some (ret, h')
    ∧ (ret = 1 ∨ malloc_succeeds h → sentence_invariant 5%positive h').
Proof.
  set (h := snd (udpipe_sentence_create (example_heap []))).
  assert (udpipe_sentence_create (example_heap []) = (Ptr 5%positive, h)) as Hc
    by (vm_compute; reflexivity).
  assert (valid_error_msg (Ptr 2%positive) h) as Hv
    by (exists nullptr; vm_compute; reflexivity).
  destruct (invariant_kept (Some example_model) (Some "The cat") 5%positive
              (Ptr 2%positive) (example_heap []) h Hc Hv)
    as (Hinv & ret & h' & Hrun & Hafter).
  exists h, ret, h'. split; [exact Hc|]. split; [exact Hinv|].
  split; [exact Hrun|exact Hafter].
Defined.

(** * The calls with their temporaries *)

(** ** The construction of a temporary *)

(** A temporary is built, or it is too long for the small-string buffer
    and its request is refused: then [std::bad_alloc] is thrown. *)
Lemma make_string_cases p rt :
  built p rt
  ∨ (Cxx.small_capacity rt < String.length (from_c_str p))%nat
    ∧ ∃ o, Cxx.news rt = false :: o
           ∧ Cxx.make_string p rt
             = (udpipe.throws (udpipe.std_exception (Cxx.bad_alloc_what rt)),
                Cxx.with_news rt o).
Proof.
  unfold built, Cxx.make_string.
  destruct (decide _) as [Hfit|Hlong]; [left; by eexists|].
  destruct (Cxx.news rt) as [|[] o] eqn:Hnews; [left; by eexists..|].
  right. split; [lia|]. by exists o.
Qed.

Lemma make_string_runtime p rt x rt' :
  Cxx.make_string p rt = (x, rt') → constructed rt → constructed rt'.
Proof.
  unfold Cxx.make_string, constructed.
  destruct (decide _); [by intros [= _ <-]|].
  destruct (Cxx.news rt) as [|[] o] eqn:Hnews.
  - intros [= _ <-] _. rewrite Hnews. constructor.
  - intros [= _ <-] Hall. simpl. by apply Forall_cons_1 in Hall as [_ ?].
  - intros _ Hall. by apply Forall_cons_1 in Hall as [? _].
Qed.

Lemma constructed_built p rt : constructed rt → built p rt.
Proof.
  intros Hall. destruct (make_string_cases p rt) as [?|(_ & o & Hnews & _)]; [done|].
  unfold constructed in Hall. rewrite Hnews in Hall.
  by apply Forall_cons_1 in Hall as [? _].
Qed.

(** ** The calls in which the temporaries are built *)

Lemma set_error_built error_msg msg rt h :
  error_msg = nullptr ∨ built msg rt →
  ∃ rt', Cxx.set_error error_msg msg rt h
         = (λ h', (udpipe.returns (), rt', h')) <$> set_error error_msg msg h
         ∧ (constructed rt → constructed rt').
Proof.
  intros Hb. destruct error_msg as [|e]; [by exists rt|].
  destruct Hb as [|[rt' Hmk]]; [done|]. exists rt'.
  split; [|by apply (make_string_runtime msg rt (udpipe.returns (from_c_str msg)) rt')].
  unfold Cxx.set_error, set_error. rewrite Hmk.
  destruct (duplicate_string (from_c_str msg) h) as [[p h1]|]; [|done]. simpl.
  by destruct (mem h1 !! e) as [[]|].
Qed.

Lemma fail_with_built error_msg msg rt h :
  error_msg = nullptr ∨ built msg rt →
  ∃ rt', Cxx.fail_with error_msg msg rt h
         = returned rt' <$> fail_with error_msg msg h
         ∧ (constructed rt → constructed rt').
Proof.
  intros Hb. destruct (set_error_built error_msg msg rt h Hb) as (rt' & Hrun & Hrt).
  exists rt'. split; [|done]. unfold Cxx.fail_with, fail_with. rewrite Hrun.
  by destruct (set_error error_msg msg h).
Qed.

Lemma fail_with_constructed error_msg msg rt h :
  constructed rt →
  ∃ rt', constructed rt'
         ∧ Cxx.fail_with error_msg msg rt h
           = returned rt' <$> fail_with error_msg msg h.
Proof.
  intros Hall.
  destruct (fail_with_built error_msg msg rt h) as (rt' & Hrun & Hrt);
    [right; by apply constructed_built|].
  exists rt'. auto.
Qed.

Lemma handler_constructed error_msg e rt h :
  constructed rt →
  ∃ rt', constructed rt'
         ∧ Cxx.handler error_msg e rt h = returned rt' <$> handler error_msg e h.
Proof. destruct e; apply fail_with_constructed. Qed.

Lemma extract_results_constructed s t res error_msg rt h :
  constructed rt →
  ∃ rt', constructed rt'
         ∧ Cxx.extract_results s t res error_msg rt h
           = returned rt' <$> extract_results s t res error_msg h.
Proof.
  intros Hall. unfold Cxx.extract_results, extract_results.
  destruct (constructed_built t rt Hall) as [rt1 Hmk].
  pose proof (make_string_runtime _ _ _ _ Hmk Hall) as Hall1.
  assert (∀ h1 : heap,
            match Cxx.make_string t rt with
            | (udpipe.throws ex, rt0) => Some (udpipe.throws ex, rt0, h1)
            | (udpipe.returns str, rt0) =>
                '(copy, h2) ← duplicate_string str h1;
                h3 ← assign res (set_text copy) h2;
                Some (udpipe.returns 1, rt0, h3)
            end
            = returned rt1 <$> ('(copy, h2) ← duplicate_string (from_c_str t) h1;
                                h3 ← assign res (set_text copy) h2;
                                Some (1, h3))) as Htext.
  { intros h1. rewrite Hmk.
    destruct (duplicate_string (from_c_str t) h1) as [[copy h2]|]; [|done]. step.
    by destruct (assign res (set_text copy) h2). }
  destruct (assign res (set_word_count (length (udpipe.words s))) h) as [h0|];
    [|by exists rt]. step.
  destruct (decide _) as [Hpos|Hzero]; cycle 1.
  { exists rt1. split; [done|]. step. apply Htext. }
  destruct (malloc _ h0) as [[|a] h1].
  - destruct (assign res (set_words nullptr) h1) as [h2|]; [|by exists rt]. step.
    destruct (fail_with_constructed error_msg "Memory allocation failed" rt h2 Hall)
      as (rt2 & Hall2 & Hrun).
    exists rt2. split; [done|]. rewrite Hrun. unfold fail_with.
    by destruct (set_error error_msg "Memory allocation failed" h2).
  - destruct (assign res (set_words (Ptr a)) h1) as [h2|]; [|by exists rt]. step.
    destruct (for_loop _ _ _ h2) as [h3|]; [|by exists rt]. step.
    exists rt1. split; [done|]. apply Htext.
Qed.

(** Where every temporary is built, the call with its temporaries is the
    call of the first embedding. *)
Lemma process_text_constructed model_ptr text result error_msg rt h :
  constructed rt →
  ∃ rt', constructed rt'
         ∧ Cxx.udpipe_process_text model_ptr text result error_msg rt h
           = returned rt' <$> udpipe_process_text model_ptr text result error_msg h.
Proof.
  intros Hall.
  destruct model_ptr as [m|];
    [|by apply fail_with_constructed].
  destruct text as [t|];
    [|by apply fail_with_constructed].
  destruct result as [|res];
    [by apply fail_with_constructed|].
  rewrite process_text_stages. unfold Cxx.udpipe_process_text, Cxx.try_block.
  destruct (stages m t) as [s|msg|ex].
  - destruct (extract_results_constructed s t res error_msg rt h Hall)
      as (rt' & Hall' & Hrun).
    exists rt'. split; [done|]. rewrite Hrun.
    by destruct (extract_results s t res error_msg h) as [[ret h']|].
  - destruct (fail_with_constructed error_msg msg rt h Hall) as (rt' & Hall' & Hrun).
    exists rt'. split; [done|]. rewrite Hrun.
    by destruct (fail_with error_msg msg h) as [[ret h']|].
  - step. by apply handler_constructed.
Qed.

(** ** The paths on which a temporary is refused *)

Lemma make_string_refused p rt o :
  (Cxx.small_capacity rt < String.length (from_c_str p))%nat →
  Cxx.news rt = false :: o →
  Cxx.make_string p rt
  = (udpipe.throws (udpipe.std_exception (Cxx.bad_alloc_what rt)), Cxx.with_news rt o).
Proof.
  intros Hlong Hnews. unfold Cxx.make_string.
  destruct (decide _) as [Hfit|_]; [lia|]. by rewrite Hnews.
Qed.

Lemma fail_with_refused e msg rt o h :
  (Cxx.small_capacity rt < String.length (from_c_str msg))%nat →
  Cxx.news rt = false :: o →
  Cxx.fail_with (Ptr e) msg rt h
  = Some (udpipe.throws (udpipe.std_exception (Cxx.bad_alloc_what rt)),
          Cxx.with_news rt o, h).
Proof.
  intros Hlong Hnews. unfold Cxx.fail_with, Cxx.set_error.
  by rewrite (make_string_refused msg rt o Hlong Hnews).
Qed.

(** X12.  Line 60 is before the [try] block: with a null argument and a
    variable for the message, a refused temporary of "Invalid parameters"
    - 18 characters, more than the small-string buffer holds - makes
    [std::bad_alloc] leave [udpipe_process_text]; no value is returned, the
    heap and the error variable are as they were. *)
Theorem invalid_parameters_escapes (model_ptr : option udpipe.model)
    (text : option string) (result : ptr) (e : addr) (rt : Cxx.runtime)
    (o : list bool) (h : heap) :
  model_ptr = None ∨ text = None ∨ result = nullptr →
  (Cxx.small_capacity rt < 18)%nat → Cxx.news rt = false :: o →
  Cxx.udpipe_process_text model_ptr text result (Ptr e) rt h
  = Some (udpipe.throws (udpipe.std_exception (Cxx.bad_alloc_what rt)),
          Cxx.with_news rt o, h).
Proof.
  intros Hnull Hsmall Hnews.
  pose proof (fail_with_refused e "Invalid parameters" rt o h Hsmall Hnews) as Hrun.
  destruct Hnull as [->|[->| ->]]; [done|by destruct model_ptr|].
  by destruct model_ptr, text.
Qed.

Lemma invalid_parameters_escapes_witness :
  Cxx.udpipe_process_text None (Some "The cat") (Ptr 1%positive) (Ptr 2%positive)
    (example_runtime [false]) (example_heap [])
  = Some (udpipe.throws (udpipe.std_exception "std::bad_alloc"),
          example_runtime [], example_heap []).
Proof.
  apply (invalid_parameters_escapes None (Some "The cat") (Ptr 1%positive)
           2%positive (example_runtime [false]) [] (example_heap [])).
  - left. reflexivity.
  - simpl. lia.
  - reflexivity.
Defined.

(** X13.  Lines 144 and 149 are inside the handlers.  When the library
    throws something that is no [std::exception] and the temporary of
    "Unknown error occurred" - 22 characters - is refused, the
    [std::bad_alloc] is thrown from the handler of line 147 and leaves
    [udpipe_process_text]: the exception of the library has not been
    converted into a return value. *)
Theorem handler_temporary_escapes (m : udpipe.model) (t : string) (res e : addr)
    (rt : Cxx.runtime) (o : list bool) (h : heap) :
  stages m t = Thrown udpipe.other_exception →
  (Cxx.small_capacity rt < 22)%nat → Cxx.news rt = false :: o →
  Cxx.udpipe_process_text (Some m) (Some t) (Ptr res) (Ptr e) rt h
  = Some (udpipe.throws (udpipe.std_exception (Cxx.bad_alloc_what rt)),
          Cxx.with_news rt o, h).
Proof.
  intros Hst Hsmall Hnews.
  unfold Cxx.udpipe_process_text, Cxx.try_block. rewrite Hst. step.
  by apply fail_with_refused.
Qed.

Lemma handler_temporary_escapes_witness :
  Cxx.udpipe_process_text (Some aborting_model) (Some "The cat") (Ptr 1%positive)
    (Ptr 2%positive) (example_runtime [false]) (example_heap [])
  = Some (udpipe.throws (udpipe.std_exception "std::bad_alloc"),
          example_runtime [], example_heap []).
Proof.
  apply (handler_temporary_escapes aborting_model "The cat" 1%positive 2%positive
           (example_runtime [false]) [] (example_heap [])).
  - reflexivity.
  - simpl. lia.
  - reflexivity.
Defined.

(** ** The temporary of the text, refused after the conversion *)

Lemma store_same res r h :
  load_sentence res h = Some r → store res (BSentence r) h = h.
Proof.
  intros Hr%load_sentence_lookup. destruct h as [m o]. unfold store. simpl in *.
  f_equal. by apply insert_id.
Qed.

Lemma set_text_same r : set_text (text r) r = r.
Proof. by destruct r. Qed.

(** Up to line 138 the call does what a call with an empty text does up
    to its [return 1]: on a record without text the copy of an empty text
    changes nothing. *)
Lemma extract_results_text_refused s t res error_msg rt o h r :
  load_sentence res h = Some r → text r = nullptr →
  length (udpipe.words s) = 0%nat ∨ malloc_succeeds h →
  (Cxx.small_capacity rt < String.length (from_c_str t))%nat →
  Cxx.news rt = false :: o →
  ∃ h3 r3,
    extract_results s EmptyString res error_msg h = Some (1, h3)
    ∧ load_sentence res h3 = Some r3 ∧ text r3 = nullptr
    ∧ Cxx.extract_results s t res error_msg rt h
      = Some (udpipe.throws (udpipe.std_exception (Cxx.bad_alloc_what rt)),
              Cxx.with_news rt o, h3).
Proof.
  intros Hr Htext Hgr Hlong Hnews.
  pose proof (make_string_refused t rt o Hlong Hnews) as Hmk.
  assert (∀ h3 r3, load_sentence res h3 = Some r3 → text r3 = nullptr →
            ('(copy, h4) ← duplicate_string (from_c_str EmptyString) h3;
             h5 ← assign res (set_text copy) h4; Some (1, h5))
            = Some (1, h3)) as Hattach.
  { intros h3 r3 Hr3 Ht3. unfold duplicate_string. simpl from_c_str.
    destruct (decide _) as [_|?]; [|done]. step.
    rewrite (assign_spec _ _ _ _ Hr3). step.
    rewrite <- Ht3, set_text_same. by rewrite (store_same _ _ _ Hr3). }
  unfold Cxx.extract_results, extract_results. rewrite Hmk.
  rewrite (assign_spec _ _ _ _ Hr). step.
  set (n := length (udpipe.words s)) in *.
  set (h0 := store res (BSentence (set_word_count n r)) h).
  assert (load_sentence res h0 = Some (set_word_count n r)) as Hr0
    by apply load_sentence_store.
  destruct (decide (0 < n)%nat) as [Hpos|Hzero]; cycle 1.
  { exists h0, (set_word_count n r). step. rewrite (Hattach _ _ Hr0 Htext). done. }
  destruct Hgr as [?|Hok]; [lia|].
  pose proof (malloc_spec (BWords (replicate n None)) h0) as Hm.
  destruct (malloc _ h0) as [[|arr] h1].
  { destruct Hm as [_ Ho]. unfold malloc_succeeds in Hok. simpl in Ho.
    by rewrite Ho in Hok. }
  destruct Hm as (Hfresh & Hmem & _ & _).
  assert (arr ≠ res) as Harr_res.
  { intros ->. apply load_sentence_lookup in Hr0. congruence. }
  assert (load_sentence res h1 = Some (set_word_count n r)) as Hr1.
  { apply load_sentence_lookup. rewrite Hmem, lookup_insert_ne by done.
    by apply load_sentence_lookup. }
  rewrite (assign_spec _ _ _ _ Hr1). step.
  set (r2 := set_words (Ptr arr) (set_word_count n r)).
  set (h2 := store res (BSentence r2) h1).
  destruct (extract_loop_spec s arr False n 0 h2 (replicate n None))
    as (h3 & cells & Hloop & _ & _ & Hk3 & _).
  { done. }
  { simpl. rewrite lookup_insert_ne by done. rewrite Hmem. apply lookup_insert_eq. }
  { apply length_replicate. }
  { done. }
  { intros i src Hi. lia. }
  rewrite Hloop. step.
  assert (load_sentence res h3 = Some r2) as Hr3.
  { apply load_sentence_lookup. apply Hk3; [set_solver|].
    simpl. apply lookup_insert_eq. }
  exists h3, r2. by rewrite (Hattach _ _ Hr3 Htext).
Qed.

(** X14.  Line 138 is inside the [try] block and after the conversion.
    When the stages have parsed a sentence, the array was granted, and the
    temporary of a text that is longer than the small-string buffer is
    refused, the [std::bad_alloc] is caught on line 142: the call returns 0
    and reports the [what()] of [std::bad_alloc], and the record, whose
    [words] and [text] were null, holds by then the words of the sentence
    and owns them as after a successful call, its [text] still null.  For
    a sentence with words this failed call has attached blocks to the
    record. *)
Theorem text_temporary_caught (m : udpipe.model) (t : string) (s : udpipe.sentence)
    (res e : addr) (rt : Cxx.runtime) (o : list bool) (h : heap)
    (r : UDPipeSentence) :
  stages m t = Parsed s →
  load_sentence res h = Some r → words r = nullptr → text r = nullptr →
  valid_error_msg (Ptr e) h →
  length (udpipe.words s) = 0%nat ∨ malloc_succeeds h →
  (Cxx.small_capacity rt < String.length (from_c_str t))%nat →
  Cxx.news rt = false :: o →
  built (Cxx.bad_alloc_what rt) (Cxx.with_news rt o) →
  ∃ rt' h3 h' r' ws,
    Cxx.udpipe_process_text (Some m) (Some t) (Ptr res) (Ptr e) rt h
    = Some (udpipe.returns 0, rt', h')
    ∧ populated_from h res h3 r' ws
    ∧ length ws = length (udpipe.words s)
    ∧ text r' = nullptr
    ∧ error_written e (from_c_str (Cxx.bad_alloc_what rt)) h3 h'
    ∧ load_sentence res h' = Some r'
    ∧ ((0 < length (udpipe.words s))%nat → ¬ gained_nothing (Ptr res) h h').
Proof.
  intros Hst Hr Hwords Htext Hv Hgr Hlong Hnews Hb.
  destruct (extract_results_text_refused s t res (Ptr e) rt o h r
              Hr Htext Hgr Hlong Hnews) as (h3 & r3 & Hbase & Hr3 & Ht3 & Hcxx).
  destruct (extract_results_footprint s EmptyString res (Ptr e) h r h3
              Hr Hwords Hbase) as (r' & ws & Hpop & Hlen).
  pose proof Hpop as (Hr' & _ & Hshape & _ & Hnew & Hframe).
  assert (r' = r3) as -> by congruence.
  assert (valid_error_msg (Ptr e) h3) as Hv3.
  { destruct Hv as [p0 He]. exists p0. rewrite Hframe; [done| |].
    - intros Hin. destruct (Hnew e Hin) as [Hnone _]. congruence.
    - intros ->. apply load_sentence_lookup in Hr. congruence. }
  destruct (fail_with_built (Ptr e) (Cxx.bad_alloc_what rt) (Cxx.with_news rt o) h3)
    as (rt' & Hrun & _); [by right|].
  destruct (fail_with_spec (Ptr e) (Cxx.bad_alloc_what rt) h3 Hv3)
    as (h' & Hrun' & Hrep).
  rewrite Hrun' in Hrun. simpl in Hrep.
  pose proof (error_written_record e _ h3 h' res r3 Hv3 Hrep Hr3) as Hr3'.
  exists rt', h3, h', r3, ws.
  split.
  { unfold Cxx.udpipe_process_text, Cxx.try_block. rewrite Hst, Hcxx. step.
    exact Hrun. }
  split; [done|]. split; [done|]. split; [done|]. split; [done|].
  split; [done|].
  intros Hpos (ra & rb & Ha & Hb' & _ & Hw).
  assert (ra = r) as -> by congruence. assert (rb = r3) as -> by congruence.
  rewrite Hwords in Hw. assert (words r3 = nullptr) as Hnull by tauto.
  rewrite Hnull in Hshape. subst ws. simpl in Hlen. lia.
Qed.

Lemma text_temporary_caught_witness :
  ∃ rt' h' r',
    Cxx.udpipe_process_text (Some example_model) (Some long_text) (Ptr 1%positive)
      (Ptr 2%positive) (example_runtime [false]) (example_heap [])
    = Some (udpipe.returns 0, rt', h')
    ∧ load_sentence 1%positive h' = Some r'
    ∧ ¬ gained_nothing (Ptr 1%positive) (example_heap []) h'.
Proof.
  destruct (text_temporary_caught example_model long_text example_sentence
              1%positive 2%positive (example_runtime [false]) [] (example_heap [])
              zeroed)
    as (rt' & h3 & h' & r' & ws & Hrun & _ & _ & _ & _ & Hr' & Hgain).
  - vm_compute. reflexivity.
  - vm_compute. reflexivity.
  - reflexivity.
  - reflexivity.
  - exists nullptr. vm_compute. reflexivity.
  - right. exact I.
  - vm_compute. lia.
  - reflexivity.
  - exists (example_runtime []). vm_compute. reflexivity.
  - exists rt', h', r'. split; [exact Hrun|]. split; [exact Hr'|].
    apply Hgain. simpl. lia.
Defined.

(** What the caller finds after that call: two words in the record and
    "std::bad_alloc" behind the error variable. *)
Lemma text_temporary_refused :
  ∃ rt' h' arr a buf,
    Cxx.udpipe_process_text (Some example_model) (Some long_text) (Ptr 1%positive)
      (Ptr 2%positive) (example_runtime [false]) (example_heap [])
    = Some (udpipe.returns 0, rt', h')
    ∧ load_sentence 1%positive h'
      = Some {| words := Ptr arr; word_count := 2; text := nullptr |}
    ∧ read_words (Ptr arr) 2 h'
      = Some [word_value_of example_The; word_value_of example_cat]
    ∧ mem h' !! 2%positive = Some (BCharPtr (Ptr a))
    ∧ mem h' !! a = Some (BChars buf)
    ∧ read_c_str buf = Some "std::bad_alloc".
Proof.
  eexists _, _, _, _, _. split; [vm_compute; reflexivity|].
  split; [vm_compute; reflexivity|]. split; [vm_compute; reflexivity|].
  split; [vm_compute; reflexivity|]. split; vm_compute; reflexivity.
Qed.

(** ** Null arguments *)

(** C3 (amended).  With a null model handle or a null text, and the
    temporary of the message built (none is needed when [error_msg] is
    null), [udpipe_process_text] returns 0 straight away and does nothing
    but report "Invalid parameters": the variable [error_msg] points to is
    assigned the copy of the message, a fresh buffer when the allocator
    grants it and null when it does not, and no other block, the record
    included, changes.  An empty text behind a non-null pointer is not
    rejected here. *)
Theorem C3_null_arguments (model_ptr : option udpipe.model) (text : option string)
    (result error_msg : ptr) (rt : Cxx.runtime) (h : heap) :
  model_ptr = None ∨ text = None →
  valid_error_msg error_msg h →
  error_msg = nullptr ∨ built "Invalid parameters" rt →
  ∃ rt' h',
    Cxx.udpipe_process_text model_ptr text result error_msg rt h
    = Some (udpipe.returns 0, rt', h')
    ∧ failure_reported error_msg "Invalid parameters" h h'
    ∧ (∀ e, error_msg = Ptr e → malloc_succeeds h →
         ∃ a buf, mem h' !! e = Some (BCharPtr (Ptr a)) ∧ mem h !! a = None
                  ∧ mem h' !! a = Some (BChars buf)
                  ∧ read_c_str buf = Some "Invalid parameters").
Proof.
  intros Hnull Hv Hb.
  destruct (fail_with_built error_msg "Invalid parameters" rt h Hb) as (rt' & Hrun & _).
  destruct (fail_with_spec error_msg "Invalid parameters" h Hv) as (h' & Hrun' & Hrep).
  rewrite Hrun' in Hrun. exists rt', h'. split; [|split; [exact Hrep|]].
  - destruct Hnull as [-> | ->]; [|destruct model_ptr]; exact Hrun.
  - intros e -> Hok. by eapply failure_reported_granted.
Qed.

Lemma C3_null_arguments_witness :
  ∃ rt' h',
    Cxx.udpipe_process_text (Some example_model) None (Ptr 1%positive)
      (Ptr 2%positive) (example_runtime [true]) (example_heap [])
    = Some (udpipe.returns 0, rt', h')
    ∧ failure_reported (Ptr 2%positive) "Invalid parameters" (example_heap []) h'.
Proof.
  destruct (C3_null_arguments (Some example_model) None (Ptr 1%positive)
              (Ptr 2%positive) (example_runtime [true]) (example_heap []))
    as (rt' & h' & Hrun & Hrep & _).
  - right. reflexivity.
  - exists nullptr. vm_compute. reflexivity.
  - right. exists (example_runtime []). vm_compute. reflexivity.
  - exists rt', h'. split; [exact Hrun|exact Hrep].
Defined.

(** C10 (amended).  With a null [result], whatever the other arguments,
    and the temporary of the message built (none is needed when
    [error_msg] is null), [udpipe_process_text] returns 0 and does nothing
    but report "Invalid parameters": through a null [error_msg] the heap is
    left as it was; otherwise the variable [error_msg] points to is
    assigned the copy of the message, a fresh buffer when the allocator
    grants it and null when it does not, and no other block changes. *)
Theorem C10_null_result (model_ptr : option udpipe.model) (text : option string)
    (error_msg : ptr) (rt : Cxx.runtime) (h : heap) :
  valid_error_msg error_msg h →
  error_msg = nullptr ∨ built "Invalid parameters" rt →
  ∃ rt' h',
    Cxx.udpipe_process_text model_ptr text nullptr error_msg rt h
    = Some (udpipe.returns 0, rt', h')
    ∧ failure_reported error_msg "Invalid parameters" h h'
    ∧ (∀ e, error_msg = Ptr e → malloc_succeeds h →
         ∃ a buf, mem h' !! e = Some (BCharPtr (Ptr a)) ∧ mem h !! a = None
                  ∧ mem h' !! a = Some (BChars buf)
                  ∧ read_c_str buf = Some "Invalid parameters").
Proof.
  intros Hv Hb.
  destruct (fail_with_built error_msg "Invalid parameters" rt h Hb) as (rt' & Hrun & _).
  destruct (fail_with_spec error_msg "Invalid parameters" h Hv) as (h' & Hrun' & Hrep).
  rewrite Hrun' in Hrun. exists rt', h'. split; [|split; [exact Hrep|]].
  - destruct model_ptr, text; exact Hrun.
  - intros e -> Hok. by eapply failure_reported_granted.
Qed.

Lemma C10_null_result_witness :
  ∃ rt' h',
    Cxx.udpipe_process_text (Some example_model) (Some "The cat") nullptr
      (Ptr 2%positive) (example_runtime [true]) (example_heap [])
    = Some (udpipe.returns 0, rt', h')
    ∧ failure_reported (Ptr 2%positive) "Invalid parameters" (example_heap []) h'.
Proof.
  destruct (C10_null_result (Some example_model) (Some "The cat") (Ptr 2%positive)
              (example_runtime [true]) (example_heap []))
    as (rt' & h' & Hrun & Hrep & _).
  - exists nullptr. vm_compute. reflexivity.
  - right. exists (example_runtime []). vm_compute. reflexivity.
  - exists rt', h'. split; [exact Hrun|exact Hrep].
Defined.

(** C10, as stated, fails.  With a null [result] and a null [error_msg]
    the call returns 0 and no message exists anywhere; with a variable for
    the message and the copy refused it returns 0 and the variable is
    null; and when the copy is granted the call has changed the heap: the
    variable points to a block that was not there. *)
Lemma C10_counterexample :
  Cxx.udpipe_process_text (Some example_model) (Some "The cat") nullptr nullptr
    (example_runtime []) (example_heap [])
  = Some (udpipe.returns 0, example_runtime [], example_heap [])
  ∧ (∃ rt' h',
       Cxx.udpipe_process_text (Some example_model) (Some "The cat") nullptr
         (Ptr 2%positive) (example_runtime []) (example_heap (refuse_after 0))
       = Some (udpipe.returns 0, rt', h')
       ∧ mem h' !! 2%positive = Some (BCharPtr nullptr))
  ∧ (∃ rt' h' a,
       Cxx.udpipe_process_text (Some example_model) (Some "The cat") nullptr
         (Ptr 2%positive) (example_runtime []) (example_heap [])
       = Some (udpipe.returns 0, rt', h')
       ∧ mem h' !! 2%positive = Some (BCharPtr (Ptr a))
       ∧ mem (example_heap []) !! a = None
       ∧ is_Some (mem h' !! a)).
Proof.
  split; [vm_compute; reflexivity|]. split.
  - eexists _, _. split; vm_compute; reflexivity.
  - eexists _, _, _. split; [vm_compute; reflexivity|].
    split; [vm_compute; reflexivity|]. split; [vm_compute; reflexivity|].
    eexists. vm_compute. reflexivity.
Qed.

(** ** The outcome of a call *)

(** C7 (amended).  A call with valid pointers and a non-null [error_msg],
    in which every temporary is built, returns 1 or 0.  With 1 the stages
    have parsed a sentence, the record reads back in full (its count the
    number of words of that sentence, its words and its text) and the
    error variable is as it was.  With 0 the record has gained nothing
    that the call allocated and the error variable has been assigned a
    fresh, owned, non-empty description or null - null only if the
    allocator refused a request or the model layer's own description was
    empty.  A stage that fails or throws gives 0. *)
Theorem C7_outcome (model_ptr : option udpipe.model) (input : option string)
    (result : ptr) (e : addr) (rt : Cxx.runtime) (h : heap) :
  constructed rt →
  valid_error_msg (Ptr e) h → valid_result result h →
  ∃ ret rt' h',
    Cxx.udpipe_process_text model_ptr input result (Ptr e) rt h
    = Some (udpipe.returns ret, rt', h')
    ∧ (ret = 1
       ∧ mem h' !! e = mem h !! e
       ∧ (∃ m t res s ws tx,
            model_ptr = Some m ∧ input = Some t ∧ result = Ptr res
            ∧ stages m t = Parsed s
            ∧ read_sentence res h' = Some (length (udpipe.words s), ws, tx))
       ∨ ret = 0
         ∧ gained_nothing result h h'
         ∧ ∃ p, error_delivered e h h' p
                ∧ (p = nullptr →
                     ¬ all_granted h ∨ empty_description model_ptr input))
    ∧ (∀ m t, model_ptr = Some m → input = Some t →
         match stages m t with
         | Parsed _ => True
         | Failed _ | Thrown _ => ret = 0
         end).
Proof.
  intros Hall Hv Hres.
  destruct (process_text_constructed model_ptr input result (Ptr e) rt h Hall)
    as (rt' & _ & Hrun).
  destruct (process_text_outcome model_ptr input result e h Hv Hres)
    as (ret & h' & Hrun' & Hout).
  rewrite Hrun' in Hrun. by exists ret, rt', h'.
Qed.

Lemma C7_outcome_witness :
  ∃ ret rt' h',
    Cxx.udpipe_process_text (Some example_model) (Some long_text) (Ptr 1%positive)
      (Ptr 2%positive) (example_runtime [true]) (example_heap [])
    = Some (udpipe.returns ret, rt', h')
    ∧ (ret = 1 ∨ ret = 0).
Proof.
  destruct (C7_outcome (Some example_model) (Some long_text) (Ptr 1%positive)
              2%positive (example_runtime [true]) (example_heap []))
    as (ret & rt' & h' & Hrun & [(Hret & _)|(Hret & _)] & _).
  - repeat constructor.
  - exists nullptr. vm_compute. reflexivity.
  - exists zeroed. vm_compute. reflexivity.
  - exists ret, rt', h'. split; [exact Hrun|left; exact Hret].
  - exists ret, rt', h'. split; [exact Hrun|right; exact Hret].
Defined.

(** ** What a failed call leaves to release *)

(** X3.  After a call of [udpipe_process_text] that returned 0, every
    temporary built, the pointer left in the error variable can be passed
    to [udpipe_free_string] (also when it is null), and the heap then
    holds the blocks it held before the call and no other: such a failed
    call leaks nothing.  Every block but the error variable and the record
    is as it was. *)
Theorem failed_call_releases (model_ptr : option udpipe.model)
    (input : option string) (result : ptr) (e : addr) (rt rt' : Cxx.runtime)
    (h h' : heap) :
  constructed rt →
  valid_error_msg (Ptr e) h → valid_result result h →
  Cxx.udpipe_process_text model_ptr input result (Ptr e) rt h
  = Some (udpipe.returns 0, rt', h') →
  ∃ p h'', mem h' !! e = Some (BCharPtr p)
           ∧ udpipe_free_string p h' = Some h''
           ∧ dom (mem h'') = dom (mem h)
           ∧ (∀ a, a ≠ e → Ptr a ≠ result → mem h'' !! a = mem h !! a).
Proof.
  intros Hall Hv Hres Hrun.
  destruct (process_text_constructed model_ptr input result (Ptr e) rt h Hall)
    as (rt1 & _ & Heq).
  rewrite Heq in Hrun.
  destruct (udpipe_process_text model_ptr input result (Ptr e) h)
    as [[ret h1]|] eqn:Hbase; [|done].
  injection Hrun as -> _ <-.
  by apply (failed_call_released model_ptr input result e h h1).
Qed.

Lemma failed_call_releases_witness :
  ∃ rt' h' p h'',
    Cxx.udpipe_process_text (Some example_model) (Some EmptyString) (Ptr 1%positive)
      (Ptr 2%positive) (example_runtime [true]) (example_heap [])
    = Some (udpipe.returns 0, rt', h')
    ∧ mem h' !! 2%positive = Some (BCharPtr p)
    ∧ udpipe_free_string p h' = Some h''
    ∧ dom (mem h'') = dom (mem (example_heap [])).
Proof.
  set (h' := from_option snd empty_heap
               (udpipe_process_text (Some example_model) (Some EmptyString)
                  (Ptr 1%positive) (Ptr 2%positive) (example_heap []))).
  assert (Cxx.udpipe_process_text (Some example_model) (Some EmptyString)
            (Ptr 1%positive) (Ptr 2%positive) (example_runtime [true])
            (example_heap []) = Some (udpipe.returns 0, example_runtime [], h'))
    as Hrun by (vm_compute; reflexivity).
  assert (constructed (example_runtime [true])) as Hall by (repeat constructor).
  assert (valid_error_msg (Ptr 2%positive) (example_heap [])) as Hv
    by (exists nullptr; vm_compute; reflexivity).
  assert (valid_result (Ptr 1%positive) (example_heap [])) as Hres
    by (exists zeroed; vm_compute; reflexivity).
  destruct (failed_call_releases _ _ _ _ _ _ _ _ Hall Hv Hres Hrun)
    as (p & h'' & Hp & Hfree & Hdom & _).
  exists (example_runtime []), h', p, h''. split; [exact Hrun|]. split; [exact Hp|].
  split; [exact Hfree|exact Hdom].
Defined.
